(** * WakeWander front end: the streaming conversation controller

    A shallow embedding of [src/lib/api.ts] (the two stream-opening
    generators [streamChat] and [resumeChat] with their framed event
    decoder) and of the controller half of [src/app/page.tsx]
    ([addMessage], [handleSubmit], [handleInterruptResponse],
    [handleStreamEvent] and the [disabled] gates of the two forms).

    Conventions.
    - A JavaScript string is the list of its UTF-16 code units.
    - A value of TypeScript type [any] is a [JSON] tree; [undefined] is
      [None].  Numbers are the integers, printed in decimal; fractional
      numbers and the exponent notation of very large ones are outside the
      model.
    - [JSON.parse] and [fetch] belong to the platform and are parameters.
      [JSON.parse] either fails or gives a [StreamEvent], the type the
      generators declare for what they yield; a payload that parses to
      something that is not an object is outside the model.
    - [TextDecoder] belongs to the platform too, but the claims about chunk
      boundaries depend on how it carries a character across two calls, so
      it is written out: the UTF-8 decoder of the Encoding standard, byte by
      byte, with its state kept between calls.
    - The [id] and [timestamp] that [addMessage] stamps on a message come
      from [Date.now()] and [Math.random()]; nothing in the controller reads
      them and they are left out of [Message].
    - A state variable of a React function component is a constant of one
      render.  A handler reads the constants of the render that created it,
      for as long as it runs; the setters act on the live state.  A handler
      started by a user gesture belongs to the latest render, so the state it
      reads at its start is the live state.  One handler call is followed from
      its start to its end; calls do not overlap. *)

From Stdlib Require Import List NArith ZArith Bool Lia.
From Stdlib Require Import Strings.String Strings.Ascii Strings.Byte.
From Stdlib Require Import Numbers.DecimalString Numbers.DecimalZ.
Import ListNotations.

Set Implicit Arguments.

(* ================================================================== *)
(** * JavaScript strings *)

Module JsString.

Definition code_unit := N.
Definition jsstring := list code_unit.

(** An ASCII literal of the source, as code units. *)
Definition js (s : string) : jsstring :=
  map N_of_ascii (list_ascii_of_string s).

Fixpoint eqb (a b : jsstring) : bool :=
  match a, b with
  | [], [] => true
  | x :: a', y :: b' => N.eqb x y && eqb a' b'
  | _, _ => false
  end.

(** [s.startsWith(p)] *)
Fixpoint startsWith (s p : jsstring) {struct p} : bool :=
  match p, s with
  | [], _ => true
  | c :: p', d :: s' => N.eqb c d && startsWith s' p'
  | _ :: _, [] => false
  end.

(** [s.slice(n)] for a non-negative [n] *)
Definition slice (s : jsstring) (n : nat) : jsstring := skipn n s.

(** [s.includes(p)] *)
Fixpoint includes (s p : jsstring) : bool :=
  startsWith s p ||
  match s with
  | [] => false
  | _ :: s' => includes s' p
  end.

(** [s.split(sep)] for a one-unit separator: never the empty array. *)
Fixpoint split (sep : code_unit) (s : jsstring) : list jsstring :=
  match s with
  | [] => [[]]
  | c :: s' =>
      if N.eqb c sep then [] :: split sep s'
      else match split sep s' with
           | l :: ls => (c :: l) :: ls
           | [] => [[c]]
           end
  end.

(** White space and line terminators of ECMAScript, as [trim] strips
    them. *)
Definition isWhiteSpace (c : code_unit) : bool :=
  ((9 <=? c) && (c <=? 13) || (c =? 32) || (c =? 0xA0) || (c =? 0x1680)
   || (0x2000 <=? c) && (c <=? 0x200A) || (c =? 0x2028) || (c =? 0x2029)
   || (c =? 0x202F) || (c =? 0x205F) || (c =? 0x3000) || (c =? 0xFEFF))%N.

Fixpoint trimStart (s : jsstring) : jsstring :=
  match s with
  | c :: s' => if isWhiteSpace c then trimStart s' else s
  | [] => []
  end.

(** [s.trim()] *)
Definition trim (s : jsstring) : jsstring :=
  rev (trimStart (rev (trimStart s))).

(** Truthiness of a string: non-empty. *)
Definition truthy (s : jsstring) : bool :=
  match s with [] => false | _ :: _ => true end.

(** Decimal rendering of an integer number, as [String(n)] gives it for a
    number of magnitude below 2^53.  Larger numbers are not exact in the
    code, and from 1e21 it prints them with an exponent; neither is
    represented. *)
Definition ofZ (z : Z) : jsstring :=
  js (NilEmpty.string_of_int (Z.to_int z)).

End JsString.
Import JsString.

Definition LF : code_unit := 10%N.

(* ================================================================== *)
(** * Values of type [any] *)

#[local] Set Warnings "-register-all".

Inductive JSON : Type :=
| JNull
| JBool (b : bool)
| JNum (z : Z)
| JStr (s : jsstring)
| JArr (items : list JSON)
| JObj (fields : list (jsstring * JSON)).

Module Js.

(** Truthiness, as [&&], [||] and [!] test it. *)
Definition truthy (v : JSON) : bool :=
  match v with
  | JNull => false
  | JBool b => b
  | JNum z => negb (Z.eqb z 0)
  | JStr s => JsString.truthy s
  | JArr _ | JObj _ => true
  end.

Definition truthy_opt (v : option JSON) : bool :=
  match v with Some j => truthy j | None => false end.

(** [String(v)], which is also what a template literal interpolates. *)
Fixpoint toString (v : JSON) : jsstring :=
  match v with
  | JNull => js "null"
  | JBool true => js "true"
  | JBool false => js "false"
  | JNum z => ofZ z
  | JStr s => s
  | JArr items =>
      (fix join (l : list JSON) : jsstring :=
         match l with
         | [] => []
         | x :: t =>
             let e := match x with JNull => [] | _ => toString x end in
             match t with
             | [] => e
             | _ :: _ => e ++ js "," ++ join t
             end
         end) items
  | JObj _ => js "[object Object]"
  end.

Fixpoint assoc (k : jsstring) (fields : list (jsstring * JSON)) : option JSON :=
  match fields with
  | [] => None
  | (k', v) :: rest => if JsString.eqb k k' then Some v else assoc k rest
  end.

(** [v?.k] for a key [k] that no prototype defines ([name] and [season]
    here): a field of an object, [undefined] on everything else. *)
Definition prop (v : option JSON) (k : jsstring) : option JSON :=
  match v with
  | Some (JObj fields) => assoc k fields
  | _ => None
  end.

(** [a[key]] on an array.  The key is turned into a property name; a name
    that is the decimal form of an index below the length selects that
    element.  Every other name is taken to be [undefined]: [length] (a
    number, which has no [name]) and the members inherited from
    [Array.prototype] are not represented. *)
Definition index (a : list JSON) (key : JSON) : option JSON :=
  let k := toString key in
  match find (fun i => JsString.eqb (ofZ (Z.of_nat i)) k) (seq 0 (List.length a)) with
  | Some i => nth_error a i
  | None => None
  end.

End Js.

(* ================================================================== *)
(** * [src/lib/api.ts] *)

(** [interface StreamEvent] *)
Record StreamEvent := mkEvent {
  ev_type : jsstring;
  ev_step : option jsstring;
  ev_content : option jsstring;
  ev_conversation_id : option jsstring;
  ev_data : option JSON;
  ev_interrupt_type : option jsstring;
  ev_question : option jsstring;
  ev_field : option jsstring;
  ev_options : option (list JSON);
  ev_missing_info : option (list jsstring);
  ev_budget_allocation : option JSON;
  ev_rest : list (jsstring * JSON)   (* the properties the interface omits *)
}.

(** ** The platform's [TextDecoder] (UTF-8, [fatal: false],
    [ignoreBOM: false]) called with [{stream: true}] *)

Module TextDecoder.

Record Utf8 := mkUtf8 {
  code_point : N;
  bytes_seen : N;
  bytes_needed : N;
  lower_boundary : N;
  upper_boundary : N
}.

Definition utf8_init : Utf8 := mkUtf8 0 0 0 0x80 0xBF.

Inductive HandlerResult :=
| Continue
| CodePoint (cp : N)
| DecodeError.

Definition between (lo x hi : N) : bool := ((lo <=? x) && (x <=? hi))%N.

(** One run of the UTF-8 decoder's handler on a byte.  The boolean says
    that the byte was restored to the queue and is to be handled again. *)
Definition handler (d : Utf8) (b : N) : Utf8 * HandlerResult * bool :=
  if (bytes_needed d =? 0)%N then
    if between 0x00 b 0x7F then (d, CodePoint b, false)
    else if between 0xC2 b 0xDF then
      (mkUtf8 (N.land b 0x1F) (bytes_seen d) 1
              (lower_boundary d) (upper_boundary d), Continue, false)
    else if between 0xE0 b 0xEF then
      (mkUtf8 (N.land b 0xF) (bytes_seen d) 2
              (if (b =? 0xE0)%N then 0xA0%N else lower_boundary d)
              (if (b =? 0xED)%N then 0x9F%N else upper_boundary d),
       Continue, false)
    else if between 0xF0 b 0xF4 then
      (mkUtf8 (N.land b 0x7) (bytes_seen d) 3
              (if (b =? 0xF0)%N then 0x90%N else lower_boundary d)
              (if (b =? 0xF4)%N then 0x8F%N else upper_boundary d),
       Continue, false)
    else (d, DecodeError, false)
  else if negb (between (lower_boundary d) b (upper_boundary d)) then
    (utf8_init, DecodeError, true)
  else
    let cp := N.lor (N.shiftl (code_point d) 6) (N.land b 0x3F) in
    let seen := (bytes_seen d + 1)%N in
    if (seen =? bytes_needed d)%N then (utf8_init, CodePoint cp, false)
    else (mkUtf8 cp seen (bytes_needed d) 0x80 0xBF, Continue, false).

(** Error mode [replacement]: an error emits U+FFFD. *)
Definition emitted (r : HandlerResult) : list N :=
  match r with
  | Continue => []
  | CodePoint cp => [cp]
  | DecodeError => [0xFFFD%N]
  end.

Definition process_byte (d : Utf8) (b : N) : Utf8 * list N :=
  let '(d1, r1, restored) := handler d b in
  if restored then
    let '(d2, r2, _) := handler d1 b in (d2, emitted r1 ++ emitted r2)
  else (d1, emitted r1).

(** The bytes of one call, with no flush at the end of the queue. *)
Fixpoint run (d : Utf8) (bytes : list byte) : Utf8 * list N :=
  match bytes with
  | [] => (d, [])
  | b :: rest =>
      let (d1, out1) := process_byte d (Byte.to_N b) in
      let (d2, out2) := run d1 rest in
      (d2, out1 ++ out2)
  end.

Record t := mk {
  decoder : Utf8;
  bom_seen : bool
}.

(** [new TextDecoder()] *)
Definition create : t := mk utf8_init false.

(** Serializing the output of one call: the first code point of the whole
    stream is dropped when it is the byte order mark. *)
Definition serialize (seen : bool) (out : list N) : bool * list N :=
  if seen then (true, out)
  else match out with
       | [] => (false, [])
       | cp :: rest => (true, if (cp =? 0xFEFF)%N then rest else out)
       end.

(** A scalar value as UTF-16 code units. *)
Definition utf16 (cp : N) : jsstring :=
  if (cp <? 0x10000)%N then [cp]
  else let c := (cp - 0x10000)%N in
       [(0xD800 + N.shiftr c 10)%N; (0xDC00 + N.land c 0x3FF)%N].

(** [decoder.decode(value, { stream: true })] *)
Definition decode (td : t) (value : list byte) : t * jsstring :=
  let (d, out) := run (decoder td) value in
  let (seen, out') := serialize (bom_seen td) out in
  (mk d seen, flat_map utf16 out').

End TextDecoder.

(** ** Transport *)

Inductive StreamEnd :=
| EndOfStream          (* [reader.read()] resolves with [done] *)
| ReadRejected.        (* [reader.read()] rejects *)

Record Body := mkBody {
  chunks : list (list byte);
  ending : StreamEnd
}.

Inductive FetchResult :=
| FetchRejected
| Response (status : Z) (body : option Body).

(** [response.ok] *)
Definition ok (status : Z) : bool := (200 <=? status)%Z && (status <=? 299)%Z.

Inductive Request :=
| PostChatStream (message : jsstring) (conversation_id : option jsstring)
| PostChatResume (conversation_id : jsstring) (value : JSON).

Inductive JsError :=
| HttpError (status : Z)     (* [`HTTP error! status: ${response.status}`] *)
| NoReader                   (* ['No reader available'] *)
| TransportError.            (* a rejection of [fetch] or of [read] *)

Inductive Completion :=
| Returned
| Thrown (e : JsError).

(** What an iteration of the generator shows: the events it yields and the
    diagnostics it writes to the console, in order. *)
Inductive GenItem :=
| Yield (event : StreamEvent)
| ConsoleError (payload : jsstring).

Record Generated := mkGenerated {
  items : list GenItem;
  completion : Completion
}.

Fixpoint yielded (l : list GenItem) : list StreamEvent :=
  match l with
  | [] => []
  | Yield e :: rest => e :: yielded rest
  | ConsoleError _ :: rest => yielded rest
  end.

Section Api.

Variable JSON_parse : jsstring -> option StreamEvent.
Variable fetch : Request -> FetchResult.

(** [value || null] on an optional string: the empty string is falsy. *)
Definition or_null (s : option jsstring) : option jsstring :=
  match s with
  | Some (_ :: _) => s
  | _ => None
  end.

(** *** [streamChat] *)

Definition streamChat_line (line : jsstring) : list GenItem :=
  if startsWith line (js "data: ") then
    match JSON_parse (slice line 6) with
    | Some event => [Yield event]
    | None => [ConsoleError (slice line 6)]
    end
  else [].

Fixpoint streamChat_loop (decoder : TextDecoder.t) (buffer : jsstring)
    (reads : list (list byte)) : list GenItem :=
  match reads with
  | [] => []
  | value :: rest =>
      let (decoder', text) := TextDecoder.decode decoder value in
      let buffer := buffer ++ text in
      let lines := split LF buffer in
      let buffer := last lines [] in
      let lines := removelast lines in
      flat_map streamChat_line lines ++ streamChat_loop decoder' buffer rest
  end.

Definition end_completion (e : StreamEnd) : Completion :=
  match e with
  | EndOfStream => Returned
  | ReadRejected => Thrown TransportError
  end.

Definition streamChat (message : jsstring) (conversationId : option jsstring)
  : Request * Generated :=
  let request := PostChatStream message (or_null conversationId) in
  (request,
   match fetch request with
   | FetchRejected => mkGenerated [] (Thrown TransportError)
   | Response status body =>
       if negb (ok status) then mkGenerated [] (Thrown (HttpError status))
       else match body with
            | None => mkGenerated [] (Thrown NoReader)
            | Some b =>
                mkGenerated (streamChat_loop TextDecoder.create [] (chunks b))
                            (end_completion (ending b))
            end
   end).

(** *** [resumeChat] *)

Definition resumeChat_line (line : jsstring) : list GenItem :=
  if startsWith line (js "data: ") then
    match JSON_parse (slice line 6) with
    | Some event => [Yield event]
    | None => [ConsoleError (slice line 6)]
    end
  else [].

Fixpoint resumeChat_loop (decoder : TextDecoder.t) (buffer : jsstring)
    (reads : list (list byte)) : list GenItem :=
  match reads with
  | [] => []
  | value :: rest =>
      let (decoder', text) := TextDecoder.decode decoder value in
      let buffer := buffer ++ text in
      let lines := split LF buffer in
      let buffer := last lines [] in
      let lines := removelast lines in
      flat_map resumeChat_line lines ++ resumeChat_loop decoder' buffer rest
  end.

Definition resumeChat (conversationId : jsstring) (value : JSON)
  : Request * Generated :=
  let request := PostChatResume conversationId value in
  (request,
   match fetch request with
   | FetchRejected => mkGenerated [] (Thrown TransportError)
   | Response status body =>
       if negb (ok status) then mkGenerated [] (Thrown (HttpError status))
       else match body with
            | None => mkGenerated [] (Thrown NoReader)
            | Some b =>
                mkGenerated (resumeChat_loop TextDecoder.create [] (chunks b))
                            (end_completion (ending b))
            end
   end).

End Api.

(* ================================================================== *)
(** * [src/app/page.tsx] *)

Module MessageType.
Inductive t :=
| user | system | step | research | analysis | season | planning
| question | result | error | interrupt.
End MessageType.

(** What a message carries under [data]: an event's own [data], the whole
    event (for a result), or the summary built for an interrupt. *)
Inductive MessageData :=
| DataAny (v : JSON)
| DataEvent (event : StreamEvent)
| DataInterrupt (type : option jsstring) (options : option (list JSON))
                (field : option jsstring) (budget_allocation : option JSON).

(** [interface Message], without [id] and [timestamp].  [content] is
    declared a string, but the echo of an answer can store any value there
    (an option's [name] is of type [any]). *)
Record Message := mkMessage {
  msg_type : MessageType.t;
  msg_step : option jsstring;
  msg_content : JSON;
  msg_data : option MessageData
}.

(** [interface InterruptData] *)
Record InterruptData := mkInterrupt {
  int_type : option jsstring;
  int_question : jsstring;
  int_field : option jsstring;
  int_options : option (list JSON);
  int_missing_info : option (list jsstring);
  int_budget_allocation : option JSON
}.

(** The [useState] cells of [Home]. *)
Record State := mkState {
  messages : list Message;
  input : jsstring;
  isLoading : bool;
  conversationId : option jsstring;
  currentStep : Z;
  interruptData : option InterruptData;
  userResponse : jsstring;
  selectedSeason : option JSON
}.

Definition setMessages (f : list Message -> list Message) (s : State) : State :=
  mkState (f (messages s)) (input s) (isLoading s) (conversationId s)
          (currentStep s) (interruptData s) (userResponse s) (selectedSeason s).

Definition setInput (v : jsstring) (s : State) : State :=
  mkState (messages s) v (isLoading s) (conversationId s)
          (currentStep s) (interruptData s) (userResponse s) (selectedSeason s).

Definition setIsLoading (v : bool) (s : State) : State :=
  mkState (messages s) (input s) v (conversationId s)
          (currentStep s) (interruptData s) (userResponse s) (selectedSeason s).

Definition setConversationId (v : option jsstring) (s : State) : State :=
  mkState (messages s) (input s) (isLoading s) v
          (currentStep s) (interruptData s) (userResponse s) (selectedSeason s).

Definition setCurrentStep (f : Z -> Z) (s : State) : State :=
  mkState (messages s) (input s) (isLoading s) (conversationId s)
          (f (currentStep s)) (interruptData s) (userResponse s) (selectedSeason s).

Definition setInterruptData (v : option InterruptData) (s : State) : State :=
  mkState (messages s) (input s) (isLoading s) (conversationId s)
          (currentStep s) v (userResponse s) (selectedSeason s).

Definition setUserResponse (v : jsstring) (s : State) : State :=
  mkState (messages s) (input s) (isLoading s) (conversationId s)
          (currentStep s) (interruptData s) v (selectedSeason s).

Definition setSelectedSeason (v : option JSON) (s : State) : State :=
  mkState (messages s) (input s) (isLoading s) (conversationId s)
          (currentStep s) (interruptData s) (userResponse s) v.

(** [addMessage] *)
Definition addMessage (message : Message) (s : State) : State :=
  setMessages (fun prev => prev ++ [message]) s.

(** [s || fallback] on an optional string *)
Definition or_else (s : option jsstring) (fallback : jsstring) : jsstring :=
  match s with
  | Some (c :: r) => c :: r
  | _ => fallback
  end.

(** [s || undefined] on a nullable string *)
Definition or_undefined (s : option jsstring) : option jsstring :=
  match s with
  | Some (_ :: _) => s
  | _ => None
  end.

Definition truthy_str (s : option jsstring) : bool :=
  match s with Some (_ :: _) => true | _ => false end.

Definition type_is (event : StreamEvent) (tag : string) : bool :=
  JsString.eqb (ev_type event) (js tag).

Definition error_entry : Message :=
  mkMessage MessageType.error None
    (JStr (js "Sorry, I encountered an error. Please try again.")) None.

(** A message of a progress-bearing event. *)
Definition progress_entry (kind : MessageType.t) (event : StreamEvent)
    (fallback : string) : Message :=
  mkMessage kind (ev_step event)
    (JStr (or_else (ev_content event) (js fallback)))
    (option_map DataAny (ev_data event)).

(** [handleStreamEvent].  A state variable of a function component is a
    constant of the render that created the handler: [render] is that
    render's state, and is what the handler reads; the setters act on the
    live state [s]. *)
Definition handleStreamEvent (render : State) (event : StreamEvent)
    (s : State) : State :=
  let s :=
    if truthy_str (ev_conversation_id event)
       && negb (truthy_str (conversationId render))
    then setConversationId (ev_conversation_id event) s
    else s in
  if type_is event "system" then
    match ev_content event with
    | Some (c :: r) =>
        let content := c :: r in
        if negb (includes content (js "Starting"))
           && negb (includes content (js "Processing"))
        then addMessage (mkMessage MessageType.system None (JStr content) None) s
        else s
    | _ => s
    end
  else if type_is event "message" then
    match ev_content event with
    | Some (c :: r) =>
        addMessage (mkMessage MessageType.system None (JStr (c :: r)) None) s
    | _ => s
    end
  else if type_is event "resume" then s
  else if type_is event "interrupt" then
    let s := setIsLoading false s in
    let interruptInfo :=
      mkInterrupt (ev_interrupt_type event) (or_else (ev_question event) [])
                  (ev_field event) (ev_options event) (ev_missing_info event)
                  (ev_budget_allocation event) in
    let s := setInterruptData (Some interruptInfo) s in
    addMessage
      (mkMessage MessageType.interrupt None
         (JStr (or_else (ev_question event)
                        (js "Please provide more information")))
         (Some (DataInterrupt (ev_interrupt_type event) (ev_options event)
                              (ev_field event) (ev_budget_allocation event))))
      s
  else if type_is event "step" then
    let s := setCurrentStep (fun prev => prev + 1)%Z s in
    let s := addMessage (progress_entry MessageType.step event "Processing...") s in
    if Js.truthy_opt (Js.prop (ev_data event) (js "season"))
    then setSelectedSeason (Js.prop (ev_data event) (js "season")) s
    else s
  else if type_is event "research" then
    let s := setCurrentStep (fun prev => prev + 1)%Z s in
    addMessage (progress_entry MessageType.research event
                  "Researching destinations...") s
  else if type_is event "analysis" then
    let s := setCurrentStep (fun prev => prev + 1)%Z s in
    addMessage (progress_entry MessageType.analysis event
                  "Analyzing options...") s
  else if type_is event "season" then
    let s := setCurrentStep (fun prev => prev + 1)%Z s in
    addMessage (progress_entry MessageType.season event
                  "Season recommendations...") s
  else if type_is event "planning" then
    let s := setCurrentStep (fun prev => prev + 1)%Z s in
    addMessage (progress_entry MessageType.planning event
                  "Planning itinerary...") s
  else if type_is event "result" then
    let s := setCurrentStep (fun _ => 8%Z) s in
    addMessage
      (mkMessage MessageType.result (ev_step event)
         (JStr (or_else (ev_content event) (js "Complete!")))
         (Some (DataEvent event))) s
  else if type_is event "error" then
    let s := addMessage
               (mkMessage MessageType.error None
                  (JStr (or_else (ev_content event) (js "An error occurred.")))
                  None) s in
    setIsLoading false s
  else s.

(** The body of [for await (const event of ...) handleStreamEvent(event)]:
    every yielded event is folded with the handler of the render that
    started the iteration. *)
Fixpoint for_await (render : State) (l : list GenItem) (s : State) : State :=
  match l with
  | [] => s
  | Yield event :: rest => for_await render rest (handleStreamEvent render event s)
  | ConsoleError _ :: rest => for_await render rest s
  end.

(** [try { for await ... } catch { addMessage(error) } finally
    { setIsLoading(false) }] *)
Definition try_stream (render : State) (g : Generated) (s : State) : State :=
  let s := for_await render (items g) s in
  let s := match completion g with
           | Returned => s
           | Thrown _ => addMessage error_entry s
           end in
  setIsLoading false s.

(** What a call of one of the two handlers leaves behind: the state, the
    requests it sent, and how the call completed. *)
Record Handled := mkHandled {
  h_state : State;
  h_requests : list Request;
  h_completion : Completion
}.

(** The text echoed for an answer. *)
Definition responseText (currentInterrupt : InterruptData) (value : JSON) : JSON :=
  if match int_type currentInterrupt with
     | Some t => JsString.eqb t (js "destination_selection")
     | None => false
     end
  then
    let selectedOption :=
      match int_options currentInterrupt with
      | Some options => Js.index options value
      | None => None
      end in
    match Js.prop selectedOption (js "name") with
    | Some name =>
        if Js.truthy name then name
        else JStr (js "Option " ++ Js.toString value)
    | None => JStr (js "Option " ++ Js.toString value)
    end
  else JStr (Js.toString value).

Section Home.

Variable JSON_parse : jsstring -> option StreamEvent.
Variable fetch : Request -> FetchResult.

(** The part of [handleSubmit] that runs before the stream is opened. *)
Definition handleSubmit_prologue (userMessage : jsstring) (s : State) : State :=
  let s := setInput [] s in
  let s := setIsLoading true s in
  let s := setCurrentStep (fun _ => 0%Z) s in
  let s := setInterruptData None s in
  let s := setSelectedSeason None s in
  addMessage (mkMessage MessageType.user None (JStr userMessage) None) s.

(** [handleSubmit], called from the render whose state is [s]. *)
Definition handleSubmit (s : State) : Handled :=
  if negb (JsString.truthy (trim (input s))) || isLoading s
  then mkHandled s [] Returned
  else
    let userMessage := trim (input s) in
    let s1 := handleSubmit_prologue userMessage s in
    let (request, g) :=
      streamChat JSON_parse fetch userMessage (or_undefined (conversationId s)) in
    mkHandled (try_stream s g s1) [request] Returned.

(** The part of [handleInterruptResponse] that runs before the stream is
    opened. *)
Definition handleInterruptResponse_prologue (currentInterrupt : InterruptData)
    (value : JSON) (s : State) : State :=
  let s := setIsLoading true s in
  let s := setInterruptData None s in
  let s := setUserResponse [] s in
  addMessage
    (mkMessage MessageType.user None (responseText currentInterrupt value) None) s.

(** [handleInterruptResponse], called from the render whose state is [s]. *)
Definition handleInterruptResponse (value : JSON) (s : State) : Handled :=
  match or_undefined (conversationId s), interruptData s with
  | Some conversationId, Some currentInterrupt =>
      let s1 := handleInterruptResponse_prologue currentInterrupt value s in
      let (request, g) := resumeChat JSON_parse fetch conversationId value in
      mkHandled (try_stream s g s1) [request] Returned
  | _, _ => mkHandled s [] Returned
  end.

End Home.

(** ** The [disabled] attributes of the rendered forms *)

(** The text box of the main form *)
Definition input_disabled (s : State) : bool :=
  isLoading s || match interruptData s with Some _ => true | None => false end.

(** The submit button of the main form *)
Definition submit_disabled (s : State) : bool :=
  isLoading s || negb (JsString.truthy (trim (input s)))
  || match interruptData s with Some _ => true | None => false end.

(** The button of a destination option *)
Definition option_disabled (s : State) : bool :=
  match interruptData s with None => true | Some _ => false end.

(** ** The specification's view of the state *)

Inductive StreamState := Idle | Streaming | AwaitingHumanInput | Failed.

(** The lifecycle state the specification names, read off the component:
    busy while [isLoading], otherwise awaiting an answer while an interrupt
    is held, otherwise idle.  [Failed] is passed through inside a handler
    call (the [catch] block) and is never the state a call ends in. *)
Definition stream_state (s : State) : StreamState :=
  if isLoading s then Streaming
  else match interruptData s with
       | Some _ => AwaitingHumanInput
       | None => Idle
       end.

(* ================================================================== *)
(** * The decoded stream, seen whole *)

(** The text a fresh decoder makes of a byte stream given in one piece. *)
Definition decoded (bytes : list byte) : jsstring :=
  snd (TextDecoder.decode TextDecoder.create bytes).

(** The newline-terminated lines of a text: what [split] gives, without the
    unterminated rest. *)
Definition complete_lines (text : jsstring) : list jsstring :=
  removelast (split LF text).

(** The lines that are data frames, and their payloads. *)
Definition is_frame (line : jsstring) : bool := startsWith line (js "data: ").

Definition frames (lines : list jsstring) : list jsstring :=
  map (fun line => skipn 6 line) (filter is_frame lines).

(** What one frame's payload contributes. *)
Definition frame_item (JSON_parse : jsstring -> option StreamEvent)
    (payload : jsstring) : GenItem :=
  match JSON_parse payload with
  | Some event => Yield event
  | None => ConsoleError payload
  end.

(** The events among the payloads that parse. *)
Fixpoint parsed (JSON_parse : jsstring -> option StreamEvent)
    (payloads : list jsstring) : list StreamEvent :=
  match payloads with
  | [] => []
  | p :: rest =>
      match JSON_parse p with
      | Some event => event :: parsed JSON_parse rest
      | None => parsed JSON_parse rest
      end
  end.

(* ================================================================== *)
(** * A concrete platform for the scenarios *)

Module Scenario.

(** The texts below are written with an apostrophe wherever the wire has a
    double quote. *)
Fixpoint wire (s : string) : string :=
  match s with
  | EmptyString => EmptyString
  | String c rest =>
      String (if Ascii.eqb c "'" then ascii_of_nat 34 else c) (wire rest)
  end.

Definition bytes_of (s : string) : list byte := list_byte_of_string (wire s).

Definition nl : string := String (ascii_of_nat 10) EmptyString.

(** One frame of the wire: the prefix, the payload, a line feed. *)
Definition frame (payload : string) : string :=
  ("data: " ++ payload ++ nl)%string.

Definition event (type : string) : StreamEvent :=
  mkEvent (js type) None None None None None None None None None None [].

Definition step_event : StreamEvent :=
  mkEvent (js "step") (Some (js "Analyzing")) (Some (js "Looking at options"))
          None None None None None None None None [].

Definition result_event : StreamEvent :=
  mkEvent (js "result") None (Some (js "Done"))
          None None None None None None None None
          [(js "itinerary", JObj [(js "destination", JStr (js "Kyoto"))])].

Definition interrupt_event : StreamEvent :=
  mkEvent (js "interrupt") None None None None
          (Some (js "destination_selection")) (Some (js "Pick one")) None
          (Some [JObj [(js "name", JStr (js "Kyoto"))];
                 JObj [(js "name", JStr (js "Lisbon"))]])
          None None [].

Definition with_id (e : StreamEvent) (id : string) : StreamEvent :=
  mkEvent (ev_type e) (ev_step e) (ev_content e) (Some (js id)) (ev_data e)
          (ev_interrupt_type e) (ev_question e) (ev_field e) (ev_options e)
          (ev_missing_info e) (ev_budget_allocation e) (ev_rest e).

(** The payloads of the scenarios, with the value [JSON.parse] gives for
    each; any other text is taken not to parse. *)
Definition table : list (string * StreamEvent) :=
  [ ("{'type':'step','step':'Analyzing','content':'Looking at options'}"%string,
     step_event);
    ("{'type':'result','content':'Done','itinerary':{'destination':'Kyoto'}}"%string,
     result_event);
    ("{'type':'interrupt','interrupt_type':'destination_selection','question':'Pick one','options':[{'name':'Kyoto'},{'name':'Lisbon'}]}"%string,
     interrupt_event);
    ("{'type':'step','conversation_id':'A'}"%string, with_id (event "step") "A");
    ("{'type':'step','conversation_id':'B'}"%string, with_id (event "step") "B") ].

Fixpoint lookup (t : list (string * StreamEvent)) (payload : jsstring)
  : option StreamEvent :=
  match t with
  | [] => None
  | (k, v) :: rest => if JsString.eqb (js (wire k)) payload then Some v
      else lookup rest payload
  end.

Definition JSON_parse : jsstring -> option StreamEvent := lookup table.

(** A transport that answers every request with the same response. *)
Definition always (r : FetchResult) : Request -> FetchResult := fun _ => r.

Definition serving (reads : list string) : Request -> FetchResult :=
  always (Response 200 (Some (mkBody (map bytes_of reads) EndOfStream))).

(** A state with an empty log and nothing bound. *)
Definition initial : State :=
  mkState [] [] false None 0 None [] None.

(** The same state once the user has typed a message. *)
Definition typed : State := setInput (js "hi") initial.

(** The interrupt the interrupt event above leaves behind, and a state that
    awaits its answer under the identifier [c1]. *)
Definition pending : InterruptData :=
  mkInterrupt (Some (js "destination_selection")) (js "Pick one") None
              (ev_options interrupt_event) None None.

Definition awaiting : State :=
  mkState [] [] false (Some (js "c1")) 0 (Some pending) [] None.

(** A state in which a stream is loading. *)
Definition loading : State := setIsLoading true typed.

Definition frame_A : string := frame "{'type':'step','conversation_id':'A'}".
Definition frame_B : string := frame "{'type':'step','conversation_id':'B'}".
Definition frame_step : string :=
  frame "{'type':'step','step':'Analyzing','content':'Looking at options'}".
Definition frame_result : string :=
  frame "{'type':'result','content':'Done','itinerary':{'destination':'Kyoto'}}".
Definition frame_bad : string := frame "not-json".

(** One stream, whole and in pieces: a frame, a comment line that holds the
    three bytes of U+2708, a second frame and an unterminated rest.  The cuts
    fall inside the first frame, inside the character and inside the prefix
    of the second frame. *)
Definition comment_line : list byte := [x3a; x20; xe2; x9c; x88; x0a].

Definition whole : list (list byte) :=
  [ bytes_of frame_A ++ comment_line ++ bytes_of frame_B ++ bytes_of "data: {" ].

Definition pieces : list (list byte) :=
  [ bytes_of "data: {'type':'st";
    bytes_of ("ep','conversation_id':'A'}" ++ nl) ++ [x3a; x20; xe2; x9c];
    [];
    [x88; x0a] ++ bytes_of "da";
    bytes_of ("ta: {'type':'step','conversation_id':'B'}" ++ nl ++ "data: {") ].

End Scenario.

(* ================================================================== *)
(** * Vocabulary of the claims *)

(** The progress-bearing tags: the kind of entry each appends and the text
    that stands in for a missing content. *)
Definition progress_kinds : list (string * MessageType.t * string) :=
  [ ("step", MessageType.step, "Processing...");
    ("research", MessageType.research, "Researching destinations...");
    ("analysis", MessageType.analysis, "Analyzing options...");
    ("season", MessageType.season, "Season recommendations...");
    ("planning", MessageType.planning, "Planning itinerary...") ]%string.


(** The entry that echoes a user's text or answer. *)
Definition user_entry (content : JSON) : Message :=
  mkMessage MessageType.user None content None.

(** A conversation identifier is bound when the state holds a non-empty
    one. *)
Definition bound (s : State) : bool := truthy_str (conversationId s).

(** The identifier carried by the last item that carries one, or [current]
    when none does. *)
Fixpoint last_identifier (l : list GenItem) (current : option jsstring)
  : option jsstring :=
  match l with
  | [] => current
  | Yield event :: rest =>
      last_identifier rest
        (if truthy_str (ev_conversation_id event)
         then ev_conversation_id event else current)
  | ConsoleError _ :: rest => last_identifier rest current
  end.

(* ================================================================== *)
(** * The forms that call the handlers *)

Section Forms.

Variable JSON_parse : jsstring -> option StreamEvent.
Variable fetch : Request -> FetchResult.

(** The [onSubmit] of the form under a question (the text answer): a blank
    answer is not sent; otherwise the answer goes to the handler as typed. *)
Definition question_onSubmit (s : State) : Handled :=
  if JsString.truthy (trim (userResponse s))
  then handleInterruptResponse JSON_parse fetch (JStr (userResponse s)) s
  else mkHandled s [] Returned.

(** The events a call of [handleSubmit] from [s] receives when it opens its
    stream, and those a call of [handleInterruptResponse] receives. *)
Definition submit_events (s : State) : list StreamEvent :=
  yielded (items (snd (streamChat JSON_parse fetch (trim (input s))
                         (or_undefined (conversationId s))))).

Definition answer_events (cid : jsstring) (value : JSON) : list StreamEvent :=
  yielded (items (snd (resumeChat JSON_parse fetch cid value))).

End Forms.

(* ================================================================== *)
(** * Vocabulary of the further properties *)

(** The tags that [handleStreamEvent] has a [case] with a body for. *)
Definition handled_tags : list string :=
  [ "system"; "message"; "interrupt"; "step"; "research"; "analysis";
    "season"; "planning"; "result"; "error" ]%string.

(** The tags the [switch] names at all. *)
Definition all_tags : list string := "resume"%string :: handled_tags.

Definition is_progress (event : StreamEvent) : bool :=
  existsb (fun k => type_is event (fst (fst k))) progress_kinds.

Definition is_result (event : StreamEvent) : bool := type_is event "result".

Definition is_interrupt (event : StreamEvent) : bool :=
  type_is event "interrupt".

Definition carries_id (event : StreamEvent) : bool :=
  truthy_str (ev_conversation_id event).


(** How many events of a list are progress-bearing. *)
Definition count_progress (l : list StreamEvent) : Z :=
  Z.of_nat (List.length (filter is_progress l)).

Definition is_some (A : Type) (o : option A) : bool :=
  match o with Some _ => true | None => false end.

(** The entry a [system] or [message] event appends. *)
Definition system_entry (content : jsstring) : Message :=
  mkMessage MessageType.system None (JStr content) None.

(** The season a [step] event names, if it names a truthy one. *)
Definition names_season (event : StreamEvent) : option JSON :=
  if type_is event "step"
     && Js.truthy_opt (Js.prop (ev_data event) (js "season"))
  then Js.prop (ev_data event) (js "season")
  else None.

(** The season named by the last event that names one, or [current]. *)
Fixpoint last_season (l : list StreamEvent) (current : option JSON)
  : option JSON :=
  match l with
  | [] => current
  | event :: rest =>
      last_season rest
        (match names_season event with
         | Some season => Some season
         | None => current
         end)
  end.

(** An entry whose content is a non-empty text. *)
Definition has_text (m : Message) : Prop :=
  exists text, msg_content m = JStr text /\ text <> [].

(** [p] occurs in [s]. *)
Definition occurs_in (p s : jsstring) : Prop :=
  exists before after, s = before ++ p ++ after.

(** A generator that ends by throwing. *)
Definition throws (g : Generated) : bool :=
  match completion g with Returned => false | Thrown _ => true end.

(** What holds of the UTF-8 decoder between two bytes of any input: the
    boundaries stay inside the continuation range, and a character that is
    under way already has a bit set, or still has two bytes to come of which
    the next is at least 0x90. *)
Definition utf8_invariant (d : TextDecoder.Utf8) : Prop :=
  (0x80 <= TextDecoder.lower_boundary d)%N
  /\ (TextDecoder.upper_boundary d <= 0xBF)%N
  /\ ((TextDecoder.bytes_needed d = 0%N /\ TextDecoder.bytes_seen d = 0%N)
      \/ (TextDecoder.bytes_needed d <> 0%N
          /\ ((1 <= TextDecoder.code_point d)%N
              \/ ((0x90 <= TextDecoder.lower_boundary d)%N
                  /\ (TextDecoder.bytes_seen d + 2
                      <= TextDecoder.bytes_needed d)%N)))).

(** The decoder between two characters, past the start of the stream. *)
Definition resting : TextDecoder.t :=
  TextDecoder.mk TextDecoder.utf8_init true.

Definition is_ascii (b : byte) : bool := (Byte.to_N b <? 0x80)%N.

(** The line feeds of a byte stream and of a text. *)
Definition is_LF_byte (b : byte) : bool := N.eqb (Byte.to_N b) 10.

Definition count_LF_bytes (bytes : list byte) : nat :=
  List.length (filter is_LF_byte bytes).

Definition count_LF (text : jsstring) : nat :=
  List.length (filter (N.eqb LF) text).

(* ================================================================== *)
(** * More streams and states for the scenarios *)

Module Scenario2.
Import Scenario.

Definition winter_step : StreamEvent :=
  mkEvent (js "step") (Some (js "Season")) (Some (js "Winter it is"))
          None (Some (JObj [(js "season", JStr (js "winter"))]))
          None None None None None None [].

Definition question_event : StreamEvent :=
  mkEvent (js "interrupt") None None None None
          (Some (js "question")) (Some (js "How many days?"))
          (Some (js "duration_days")) None None None [].

Definition narration (tag content : string) : StreamEvent :=
  mkEvent (js tag) None (Some (js content)) None None None None None None
          None None [].

Definition table : list (string * StreamEvent) :=
  [ ("{'type':'step','step':'Season','content':'Winter it is','data':{'season':'winter'}}"%string,
     winter_step);
    ("{'type':'interrupt','interrupt_type':'question','question':'How many days?','field':'duration_days'}"%string,
     question_event) ] ++ Scenario.table.

Definition JSON_parse : jsstring -> option StreamEvent := lookup table.

Definition frame_interrupt : string :=
  frame "{'type':'interrupt','interrupt_type':'destination_selection','question':'Pick one','options':[{'name':'Kyoto'},{'name':'Lisbon'}]}".
Definition frame_question : string :=
  frame "{'type':'interrupt','interrupt_type':'question','question':'How many days?','field':'duration_days'}".
Definition frame_winter : string :=
  frame "{'type':'step','step':'Season','content':'Winter it is','data':{'season':'winter'}}".

(** A transport whose stream breaks after what it has delivered. *)
Definition breaking (reads : list string) : Request -> FetchResult :=
  always (Response 200 (Some (mkBody (map bytes_of reads) ReadRejected))).

(** A state that awaits the answer to a question under the identifier [c1],
    with an answer typed between spaces. *)
Definition pending_question : InterruptData :=
  mkInterrupt (Some (js "question")) (js "How many days?")
              (Some (js "duration_days")) None None None.

Definition answering : State :=
  mkState [] [] false (Some (js "c1")) 2 (Some pending_question)
          (js " 5 ") (Some (JStr (js "winter"))).

(** The input typed between spaces. *)
Definition padded : State := setInput (js "  hi  ") initial.

(** A message typed while the identifier [c1] is bound. *)
Definition typed_bound : State :=
  mkState [] (js "hi") false (Some (js "c1")) 0 None [] None.

End Scenario2.

(* ================================================================== *)
(** * Facts about strings and the decoder *)

Lemma eqb_refl (a : jsstring) : JsString.eqb a a = true.
Proof.
  induction a as [|x a IH]; simpl; [reflexivity|].
  now rewrite N.eqb_refl, IH.
Qed.

Lemma eqb_eq (a b : jsstring) : JsString.eqb a b = true <-> a = b.
Proof.
  split; [|intros ->; apply eqb_refl].
  revert b; induction a as [|x a IH]; intros [|y b]; simpl; try easy.
  intros H. apply andb_true_iff in H as [Hx Hab].
  apply N.eqb_eq in Hx. apply IH in Hab. now subst.
Qed.

Lemma startsWith_app (p s : jsstring) : startsWith (p ++ s) p = true.
Proof.
  induction p as [|c p IH]; simpl; [reflexivity|].
  now rewrite N.eqb_refl, IH.
Qed.

Lemma startsWith_inv (p s : jsstring) :
  startsWith s p = true -> s = p ++ skipn (List.length p) s.
Proof.
  revert s; induction p as [|c p IH]; intros s H; [reflexivity|].
  destruct s as [|d s]; simpl in H; [discriminate|].
  apply andb_true_iff in H as [Hc Hs].
  apply N.eqb_eq in Hc; subst d. simpl. f_equal. now apply IH.
Qed.

Lemma split_not_nil (sep : code_unit) (s : jsstring) : split sep s <> [].
Proof.
  destruct s as [|c s]; simpl; [discriminate|].
  destruct (N.eqb c sep); [discriminate|].
  destruct (split sep s); discriminate.
Qed.

Lemma removelast_cons_cons (A : Type) (x y : A) (l : list A) :
  removelast (x :: y :: l) = x :: removelast (y :: l).
Proof. reflexivity. Qed.

Lemma removelast_cons (A : Type) (x : A) (l : list A) :
  l <> [] -> removelast (x :: l) = x :: removelast l.
Proof. destruct l; [congruence | reflexivity]. Qed.

Lemma last_cons (A : Type) (x d : A) (l : list A) :
  l <> [] -> last (x :: l) d = last l d.
Proof. destruct l; [congruence | reflexivity]. Qed.

Lemma last_app_r (A : Type) (d : A) (l l' : list A) :
  l' <> [] -> last (l ++ l') d = last l' d.
Proof.
  intros Hne. induction l as [|x l IH]; [reflexivity|].
  simpl app. rewrite last_cons; [exact IH|].
  destruct l; simpl; [exact Hne | discriminate].
Qed.

(** Splitting a text given in two pieces: the lines the first piece
    completes, then the split of its unterminated rest followed by the second
    piece. *)
Lemma split_app (sep : code_unit) (a b : jsstring) :
  split sep (a ++ b) =
  removelast (split sep a) ++ split sep (last (split sep a) [] ++ b).
Proof.
  induction a as [|c a IH]; [reflexivity|].
  simpl app at 1. cbn [split].
  destruct (N.eqb c sep) eqn:Ec.
  - rewrite removelast_cons, last_cons by apply split_not_nil.
    simpl. now rewrite IH.
  - rewrite IH. pose proof (split_not_nil sep a) as Hne.
    destruct (split sep a) as [|l [|l2 ls]]; [congruence| |].
    + simpl. now rewrite Ec.
    + rewrite !removelast_cons_cons. simpl app.
      change (last ((c :: l) :: l2 :: ls) []) with (last (l :: l2 :: ls) (@nil code_unit)).
      reflexivity.
Qed.

Lemma complete_lines_app (a b : jsstring) :
  complete_lines (a ++ b) =
  complete_lines a ++ complete_lines (last (split LF a) [] ++ b).
Proof.
  unfold complete_lines. rewrite split_app.
  apply removelast_app, split_not_nil.
Qed.

Lemma last_split_app (a b : jsstring) :
  last (split LF (a ++ b)) [] =
  last (split LF (last (split LF a) [] ++ b)) [].
Proof.
  rewrite split_app. apply last_app_r, split_not_nil.
Qed.

Module DecoderFacts.
Import TextDecoder.

Lemma run_app (a b : list byte) : forall d,
  run d (a ++ b) =
  let (d1, o1) := run d a in
  let (d2, o2) := run d1 b in (d2, o1 ++ o2).
Proof.
  induction a as [|x a IH]; intros d; simpl.
  - now destruct (run d b).
  - destruct (process_byte d (Byte.to_N x)) as [d1 o1].
    rewrite IH. destruct (run d1 a) as [d2 o2].
    destruct (run d2 b) as [d3 o3]. now rewrite app_assoc.
Qed.

Lemma serialize_app (seen : bool) (o1 o2 : list N) :
  serialize seen (o1 ++ o2) =
  let (s1, o1') := serialize seen o1 in
  let (s2, o2') := serialize s1 o2 in (s2, o1' ++ o2').
Proof.
  destruct seen; simpl; [reflexivity|].
  destruct o1 as [|cp o1]; simpl.
  - now destruct o2.
  - now destruct (N.eqb cp 0xFEFF).
Qed.

(** Decoding is a stream operation: the text of two successive calls is the
    text of one call on the joined bytes, and the decoder ends in the same
    state. *)
Lemma decode_app (td : t) (a b : list byte) :
  decode td (a ++ b) =
  let (td1, t1) := decode td a in
  let (td2, t2) := decode td1 b in (td2, t1 ++ t2).
Proof.
  unfold decode. rewrite run_app.
  destruct (run (decoder td) a) as [d1 o1].
  destruct (run d1 b) as [d2 o2] eqn:E2.
  rewrite serialize_app.
  destruct (serialize (bom_seen td) o1) as [s1 o1'].
  destruct (serialize s1 o2) as [s2 o2'] eqn:E4.
  simpl. now rewrite E2, E4, flat_map_app.
Qed.

Lemma decode_nil (td : t) : snd (decode td []) = [].
Proof. unfold decode; simpl. now destruct (bom_seen td). Qed.

End DecoderFacts.

(** The unterminated rest of a split holds no separator. *)
Lemma split_last (sep : code_unit) (s : jsstring) :
  split sep (last (split sep s) []) = [last (split sep s) []].
Proof.
  induction s as [|c s IH]; [reflexivity|].
  cbn [split]. destruct (N.eqb c sep) eqn:Ec.
  - now rewrite last_cons by apply split_not_nil.
  - pose proof (split_not_nil sep s) as Hne.
    destruct (split sep s) as [|l [|l2 ls]]; [congruence| |].
    + simpl in IH |- *. now rewrite Ec, IH.
    + rewrite last_cons by discriminate.
      rewrite last_cons in IH by discriminate. exact IH.
Qed.

Lemma complete_lines_last (s : jsstring) :
  complete_lines (last (split LF s) []) = [].
Proof. unfold complete_lines. now rewrite split_last. Qed.

Lemma split_no_sep (sep : code_unit) (s : jsstring) :
  ~ In sep s -> split sep s = [s].
Proof.
  induction s as [|c s IH]; intros Hno; [reflexivity|].
  cbn [split]. destruct (N.eqb c sep) eqn:Ec.
  - apply N.eqb_eq in Ec. exfalso. apply Hno. now left.
  - rewrite IH; [reflexivity|]. intros Hin. apply Hno. now right.
Qed.

Lemma split_terminated (sep : code_unit) (s : jsstring) :
  split sep (s ++ [sep]) = split sep s ++ [[]].
Proof.
  induction s as [|c s IH]; simpl.
  - now rewrite N.eqb_refl.
  - destruct (N.eqb c sep); rewrite IH; [reflexivity|].
    pose proof (split_not_nil sep s) as Hne.
    now destruct (split sep s); [congruence|].
Qed.

(** Whatever follows the last line feed does not change the complete
    lines. *)
Lemma complete_lines_rest (text rest : jsstring) :
  ~ In LF rest ->
  complete_lines (text ++ LF :: rest) = complete_lines (text ++ [LF]).
Proof.
  intros Hno.
  change (text ++ LF :: rest) with (text ++ [LF] ++ rest).
  rewrite app_assoc, complete_lines_app, split_terminated, last_last.
  simpl app at 2. unfold complete_lines at 2.
  rewrite split_no_sep by exact Hno. simpl. apply app_nil_r.
Qed.

Section LoopFacts.

Variable JSON_parse : jsstring -> option StreamEvent.

(** The read loop of [streamChat], from any decoder state and any buffer
    that holds no complete line: it handles the complete lines of the buffer
    followed by the whole remaining text. *)
Lemma streamChat_loop_whole (reads : list (list byte)) :
  forall (decoder : TextDecoder.t) (buffer : jsstring),
  complete_lines buffer = [] ->
  streamChat_loop JSON_parse decoder buffer reads =
  flat_map (streamChat_line JSON_parse)
    (complete_lines (buffer ++ snd (TextDecoder.decode decoder (List.concat reads)))).
Proof.
  induction reads as [|value rest IH]; intros decoder buffer Hbuf.
  - simpl List.concat. now rewrite DecoderFacts.decode_nil, app_nil_r, Hbuf.
  - simpl List.concat. rewrite DecoderFacts.decode_app. cbn [streamChat_loop].
    destruct (TextDecoder.decode decoder value) as [d1 t1].
    rewrite (IH d1 _ (complete_lines_last (buffer ++ t1))).
    destruct (TextDecoder.decode d1 (List.concat rest)) as [d2 t2].
    simpl snd.
    rewrite app_assoc, (complete_lines_app (buffer ++ t1) t2), flat_map_app.
    reflexivity.
Qed.

Lemma resumeChat_loop_whole (reads : list (list byte)) :
  forall (decoder : TextDecoder.t) (buffer : jsstring),
  complete_lines buffer = [] ->
  resumeChat_loop JSON_parse decoder buffer reads =
  flat_map (resumeChat_line JSON_parse)
    (complete_lines (buffer ++ snd (TextDecoder.decode decoder (List.concat reads)))).
Proof.
  induction reads as [|value rest IH]; intros decoder buffer Hbuf.
  - simpl List.concat. now rewrite DecoderFacts.decode_nil, app_nil_r, Hbuf.
  - simpl List.concat. rewrite DecoderFacts.decode_app. cbn [resumeChat_loop].
    destruct (TextDecoder.decode decoder value) as [d1 t1].
    rewrite (IH d1 _ (complete_lines_last (buffer ++ t1))).
    destruct (TextDecoder.decode d1 (List.concat rest)) as [d2 t2].
    simpl snd.
    rewrite app_assoc, (complete_lines_app (buffer ++ t1) t2), flat_map_app.
    reflexivity.
Qed.

(** One line of either generator, in terms of frames. *)
Lemma streamChat_lines (lines : list jsstring) :
  flat_map (streamChat_line JSON_parse) lines =
  map (frame_item JSON_parse) (frames lines).
Proof.
  induction lines as [|l lines IH]; [reflexivity|].
  cbn [flat_map]. rewrite IH. unfold frames, streamChat_line, is_frame, slice.
  cbn [filter]. destruct (startsWith l (js "data: ")); [|reflexivity].
  cbn [map]. unfold frame_item at 2.
  now destruct (JSON_parse (skipn 6 l)).
Qed.

Lemma resumeChat_lines (lines : list jsstring) :
  flat_map (resumeChat_line JSON_parse) lines =
  map (frame_item JSON_parse) (frames lines).
Proof.
  induction lines as [|l lines IH]; [reflexivity|].
  cbn [flat_map]. rewrite IH. unfold frames, resumeChat_line, is_frame, slice.
  cbn [filter]. destruct (startsWith l (js "data: ")); [|reflexivity].
  cbn [map]. unfold frame_item at 2.
  now destruct (JSON_parse (skipn 6 l)).
Qed.

Lemma yielded_app (a b : list GenItem) :
  yielded (a ++ b) = yielded a ++ yielded b.
Proof.
  induction a as [|[e|p] a IH]; simpl; [reflexivity| |exact IH].
  now rewrite IH.
Qed.

Lemma yielded_frame_items (payloads : list jsstring) :
  yielded (map (frame_item JSON_parse) payloads) = parsed JSON_parse payloads.
Proof.
  induction payloads as [|p payloads IH]; [reflexivity|].
  simpl. unfold frame_item at 1.
  destruct (JSON_parse p); simpl; now rewrite IH.
Qed.

End LoopFacts.

(* ================================================================== *)
(** * The framed event decoder *)

Section DecoderClaims.

Variable JSON_parse : jsstring -> option StreamEvent.

Lemma complete_lines_nil : complete_lines [] = [].
Proof. reflexivity. Qed.

(** From a fresh decoder and an empty buffer, the read loop shows one item
    per data frame among the complete lines of the whole decoded text. *)
Lemma streamChat_loop_frames (reads : list (list byte)) :
  streamChat_loop JSON_parse TextDecoder.create [] reads =
  map (frame_item JSON_parse)
      (frames (complete_lines (decoded (List.concat reads)))).
Proof.
  rewrite streamChat_loop_whole by apply complete_lines_nil.
  apply streamChat_lines.
Qed.

Lemma resumeChat_loop_frames (reads : list (list byte)) :
  resumeChat_loop JSON_parse TextDecoder.create [] reads =
  map (frame_item JSON_parse)
      (frames (complete_lines (decoded (List.concat reads)))).
Proof.
  rewrite resumeChat_loop_whole by apply complete_lines_nil.
  apply resumeChat_lines.
Qed.

(** The two read loops are the same function, from any decoder state and
    buffer. *)
Lemma loops_agree (reads : list (list byte)) :
  forall (decoder : TextDecoder.t) (buffer : jsstring),
  streamChat_loop JSON_parse decoder buffer reads =
  resumeChat_loop JSON_parse decoder buffer reads.
Proof.
  induction reads as [|value rest IH]; intros decoder buffer; [reflexivity|].
  cbn [streamChat_loop resumeChat_loop].
  destruct (TextDecoder.decode decoder value) as [d1 t1].
  now rewrite IH.
Qed.

(** C2. For every byte stream and every two ways of cutting it into chunks
    (cuts inside a frame and inside a multi-byte character included), the
    read loop of [streamChat] and that of [resumeChat] show the same sequence
    of yields and diagnostics, hence the same sequence of parsed events. *)
Theorem C2_chunking_is_invisible (reads1 reads2 : list (list byte)) :
  List.concat reads1 = List.concat reads2 ->
  (streamChat_loop JSON_parse TextDecoder.create [] reads1 =
   streamChat_loop JSON_parse TextDecoder.create [] reads2
   /\ yielded (streamChat_loop JSON_parse TextDecoder.create [] reads1) =
      yielded (streamChat_loop JSON_parse TextDecoder.create [] reads2))
  /\
  (resumeChat_loop JSON_parse TextDecoder.create [] reads1 =
   resumeChat_loop JSON_parse TextDecoder.create [] reads2
   /\ yielded (resumeChat_loop JSON_parse TextDecoder.create [] reads1) =
      yielded (resumeChat_loop JSON_parse TextDecoder.create [] reads2)).
Proof.
  intros Hsame. split.
  - rewrite !streamChat_loop_frames, Hsame. now split.
  - rewrite !resumeChat_loop_frames, Hsame. now split.
Qed.

Variable fetch : Request -> FetchResult.

(** C3. When the transport answers [streamChat] with a readable body, the
    generator shows exactly one item per complete line of the decoded stream
    that starts with [data: ] -- the event its payload parses to, or a
    diagnostic -- and nothing for any other line; the text after the last
    line feed is never looked at.  Its events are the payloads that parse. *)
Theorem C3_only_data_frames (message : jsstring) (cid : option jsstring)
    (status : Z) (body : Body) :
  fetch (PostChatStream message (or_null cid)) = Response status (Some body) ->
  ok status = true ->
  let g := snd (streamChat JSON_parse fetch message cid) in
  let lines := complete_lines (decoded (List.concat (chunks body))) in
  items g = map (frame_item JSON_parse) (frames lines)
  /\ yielded (items g) = parsed JSON_parse (frames lines)
  /\ (forall line, In line lines -> is_frame line = false ->
      streamChat_line JSON_parse line = [])
  /\ forall text rest,
       ~ In LF rest ->
       complete_lines (text ++ LF :: rest) = complete_lines (text ++ [LF]).
Proof.
  intros Hfetch Hok g lines. subst g lines.
  unfold streamChat. cbn [snd]. rewrite Hfetch, Hok. cbn [negb items].
  rewrite streamChat_loop_frames. split; [reflexivity|].
  split; [apply yielded_frame_items|].
  split.
  - intros line _ Hno. unfold streamChat_line.
    unfold is_frame in Hno. now rewrite Hno.
  - intros text rest. apply complete_lines_rest.
Qed.

(** C4. In a stream that [streamChat] reads to its end, a data frame whose
    payload does not parse is dropped with one diagnostic and the generator
    goes on: it completes normally, and around the diagnostic it shows what
    the lines before and the lines after the bad frame give, in the same
    order. *)
Theorem C4_parse_failure_is_local (message : jsstring) (cid : option jsstring)
    (status : Z) (body : Body) (before after : list jsstring) (bad : jsstring) :
  fetch (PostChatStream message (or_null cid)) = Response status (Some body) ->
  ok status = true ->
  ending body = EndOfStream ->
  complete_lines (decoded (List.concat (chunks body))) =
    before ++ (js "data: " ++ bad) :: after ->
  JSON_parse bad = None ->
  let g := snd (streamChat JSON_parse fetch message cid) in
  completion g = Returned
  /\ items g =
     flat_map (streamChat_line JSON_parse) before
     ++ ConsoleError bad :: flat_map (streamChat_line JSON_parse) after
  /\ yielded (items g) =
     parsed JSON_parse (frames before) ++ parsed JSON_parse (frames after).
Proof.
  intros Hfetch Hok Hend Hlines Hbad g. subst g.
  unfold streamChat. cbn [snd]. rewrite Hfetch, Hok, Hend.
  cbn [negb items completion end_completion].
  split; [reflexivity|].
  assert (Hitems :
    streamChat_loop JSON_parse TextDecoder.create [] (chunks body) =
    flat_map (streamChat_line JSON_parse) before
    ++ ConsoleError bad :: flat_map (streamChat_line JSON_parse) after).
  { rewrite streamChat_loop_whole by apply complete_lines_nil.
    simpl app at 1. fold (decoded (List.concat (chunks body))).
    rewrite Hlines, flat_map_app. f_equal. cbn [flat_map].
    unfold streamChat_line at 1.
    rewrite (startsWith_app (js "data: ") bad).
    unfold slice. change 6%nat with (List.length (js "data: ")).
    rewrite skipn_app, skipn_all, Nat.sub_diag. simpl skipn.
    change ([] ++ bad) with bad. now rewrite Hbad. }
  split; [exact Hitems|].
  rewrite Hitems, yielded_app. cbn [yielded].
  now rewrite !streamChat_lines, !yielded_frame_items.
Qed.

(** C10. Given the same response, [streamChat] and [resumeChat] produce the
    same thing: the same yields and diagnostics in the same order, and the
    same completion. *)
Theorem C10_one_decoder (message : jsstring) (cid : option jsstring)
    (conversationId : jsstring) (value : JSON) :
  fetch (PostChatStream message (or_null cid)) =
  fetch (PostChatResume conversationId value) ->
  snd (streamChat JSON_parse fetch message cid) =
  snd (resumeChat JSON_parse fetch conversationId value)
  /\ yielded (items (snd (streamChat JSON_parse fetch message cid))) =
     yielded (items (snd (resumeChat JSON_parse fetch conversationId value))).
Proof.
  intros Hsame.
  assert (E : snd (streamChat JSON_parse fetch message cid) =
              snd (resumeChat JSON_parse fetch conversationId value)).
  { unfold streamChat, resumeChat. cbn [snd]. rewrite Hsame.
    destruct (fetch (PostChatResume conversationId value))
      as [|status [body|]]; [reflexivity| |reflexivity].
    destruct (negb (ok status)); [reflexivity|].
    now rewrite loops_agree. }
  split; [exact E | now rewrite E].
Qed.

End DecoderClaims.

(* ================================================================== *)
(** * Facts about the controller *)

Lemma js_inj (a b : string) : js a = js b -> a = b.
Proof.
  unfold js. intros H.
  rewrite <- (string_of_list_ascii_of_string a),
          <- (string_of_list_ascii_of_string b).
  f_equal. revert H.
  generalize (list_ascii_of_string a) (list_ascii_of_string b).
  induction l as [|x l IH]; intros [|y l']; simpl; try easy.
  intros H. injection H as Hxy Hl.
  f_equal; [|now apply IH].
  now rewrite <- (ascii_N_embedding x), <- (ascii_N_embedding y), Hxy.
Qed.

Lemma ofZ_inj (a b : Z) : ofZ a = ofZ b -> a = b.
Proof.
  unfold ofZ. intros H. apply js_inj in H.
  apply DecimalZ.to_int_inj.
  assert (E : Some (Z.to_int a) = Some (Z.to_int b))
    by now rewrite <- !NilEmpty.isi, H.
  now injection E.
Qed.

Lemma find_seq_only (f : nat -> bool) (i : nat) :
  (forall j, f j = true <-> j = i) ->
  forall n a, (a <= i < a + n)%nat -> find f (seq a n) = Some i.
Proof.
  intros Hf. induction n as [|n IH]; intros a Hi; [lia|].
  simpl. destruct (f a) eqn:Ea.
  - apply Hf in Ea. now subst.
  - apply IH. assert (a <> i) by (intros ->; rewrite (proj2 (Hf i) eq_refl) in Ea; discriminate).
    lia.
Qed.

(** Indexing a list of options by a number within its length. *)
Lemma index_in_range (options : list JSON) (i : nat) :
  (i < List.length options)%nat ->
  Js.index options (JNum (Z.of_nat i)) = nth_error options i.
Proof.
  intros Hi. unfold Js.index. cbn [Js.toString].
  rewrite (@find_seq_only _ i); [reflexivity| |lia].
  intros j. rewrite eqb_eq. split; [|now intros ->].
  intros H. apply ofZ_inj in H. lia.
Qed.

Ltac split_event_cases :=
  unfold handleStreamEvent;
  repeat match goal with
    | |- context [if ?b then _ else _] => destruct b
    | |- context [match ev_content ?e with _ => _ end] =>
        destruct (ev_content e) as [[|? ?]|]
    end.

(** The log only grows: an event appends at most one entry. *)
Lemma handleStreamEvent_appends (render : State) (event : StreamEvent) (s : State) :
  exists l, messages (handleStreamEvent render event s) = messages s ++ l.
Proof.
  split_event_cases; cbn;
    first [ now exists []; rewrite app_nil_r | eexists; reflexivity ].
Qed.

Lemma for_await_appends (render : State) (l : list GenItem) :
  forall s, exists more, messages (for_await render l s) = messages s ++ more.
Proof.
  induction l as [|[event|payload] l IH]; intros s; simpl.
  - exists []. now rewrite app_nil_r.
  - destruct (IH (handleStreamEvent render event s)) as [m2 H2].
    destruct (handleStreamEvent_appends render event s) as [m1 H1].
    exists (m1 ++ m2). now rewrite H2, H1, app_assoc.
  - apply IH.
Qed.

Lemma try_stream_appends (render : State) (g : Generated) (s : State) :
  exists more, messages (try_stream render g s) = messages s ++ more.
Proof.
  unfold try_stream.
  destruct (for_await_appends render (items g) s) as [m H].
  destruct (completion g); cbn; rewrite H.
  - now exists m.
  - exists (m ++ [error_entry]). now rewrite app_assoc.
Qed.

(** A handler created by a render that already holds an identifier never
    calls [setConversationId]. *)
Lemma handleStreamEvent_keeps_id (render : State) (event : StreamEvent) (s : State) :
  bound render = true ->
  conversationId (handleStreamEvent render event s) = conversationId s.
Proof.
  unfold bound. intros Hb. unfold handleStreamEvent. rewrite Hb, andb_false_r.
  repeat match goal with
    | |- context [if ?b then _ else _] => destruct b
    | |- context [match ev_content ?e with _ => _ end] =>
        destruct (ev_content e) as [[|? ?]|]
    end; reflexivity.
Qed.

Lemma for_await_keeps_id (render : State) (l : list GenItem) :
  bound render = true ->
  forall s, conversationId (for_await render l s) = conversationId s.
Proof.
  intros Hb. induction l as [|[event|payload] l IH]; intros s; simpl;
    [reflexivity| |apply IH].
  now rewrite IH, handleStreamEvent_keeps_id.
Qed.

(** A handler created by a render that holds no identifier calls
    [setConversationId] for every event that carries one: over a stream the
    last one stays. *)
Lemma handleStreamEvent_rebinds (render : State) (event : StreamEvent) (s : State) :
  bound render = false ->
  conversationId (handleStreamEvent render event s) =
  if truthy_str (ev_conversation_id event)
  then ev_conversation_id event else conversationId s.
Proof.
  unfold bound. intros Hb. unfold handleStreamEvent. rewrite Hb, andb_true_r.
  destruct (truthy_str (ev_conversation_id event));
  repeat match goal with
    | |- context [if ?b then _ else _] => destruct b
    | |- context [match ev_content ?e with _ => _ end] =>
        destruct (ev_content e) as [[|? ?]|]
    end; reflexivity.
Qed.

Lemma for_await_last_identifier (render : State) (l : list GenItem) :
  bound render = false ->
  forall s,
  conversationId (for_await render l s) = last_identifier l (conversationId s).
Proof.
  intros Hb. induction l as [|[event|payload] l IH]; intros s; simpl;
    [reflexivity| |apply IH].
  now rewrite IH, handleStreamEvent_rebinds.
Qed.

(** No stream that [handleSubmit] opens from a render with a bound
    identifier, and no stream that [handleInterruptResponse] opens at all,
    changes the identifier. *)
Lemma bound_render_never_rebinds
    (JSON_parse : jsstring -> option StreamEvent)
    (fetch : Request -> FetchResult) (s : State) :
  (bound s = true ->
   conversationId (h_state (handleSubmit JSON_parse fetch s)) = conversationId s)
  /\ forall value,
       conversationId (h_state (handleInterruptResponse JSON_parse fetch value s))
       = conversationId s.
Proof.
  split.
  - intros Hb. unfold handleSubmit.
    destruct (negb (JsString.truthy (trim (input s))) || isLoading s);
      [reflexivity|].
    destruct (streamChat JSON_parse fetch (trim (input s))
                (or_undefined (conversationId s))) as [request g].
    cbn [h_state]. unfold try_stream.
    destruct (completion g); cbn; now rewrite for_await_keeps_id.
  - intros value. unfold handleInterruptResponse.
    destruct (or_undefined (conversationId s)) as [cid|] eqn:Ecid;
      [|reflexivity].
    destruct (interruptData s) as [ci|]; [|reflexivity].
    assert (Hb : bound s = true).
    { unfold bound. now destruct (conversationId s) as [[|? ?]|]. }
    destruct (resumeChat JSON_parse fetch cid value) as [request g].
    cbn [h_state]. unfold try_stream.
    destruct (completion g); cbn; now rewrite for_await_keeps_id.
Qed.

Lemma or_null_or_undefined (c : option jsstring) :
  or_null (or_undefined c) = or_undefined c.
Proof. now destruct c as [[|? ?]|]. Qed.

(* ================================================================== *)
(** * The conversation state machine *)

Section ControllerClaims.

Variable JSON_parse : jsstring -> option StreamEvent.
Variable fetch : Request -> FetchResult.

Lemma type_is_eq (event : StreamEvent) (tag : string) :
  type_is event tag = true -> ev_type event = js tag.
Proof. apply eqb_eq. Qed.

(** C9. While a destination selection is pending and an identifier is bound,
    answering with the index of one of the captured options sends one resume
    request whose [value] is that index, and the entry that echoes the answer
    is appended right after the log as it stood: its content is the option's
    [name] when the option has a truthy one, and [Option <index>] when the
    option has no [name] or a falsy one. *)
Theorem C9_destination_answer (s : State) (cid : jsstring)
    (currentInterrupt : InterruptData) (options : list JSON) (i : nat)
    (option : JSON) :
  or_undefined (conversationId s) = Some cid ->
  interruptData s = Some currentInterrupt ->
  int_type currentInterrupt = Some (js "destination_selection") ->
  int_options currentInterrupt = Some options ->
  nth_error options i = Some option ->
  let value := JNum (Z.of_nat i) in
  let h := handleInterruptResponse JSON_parse fetch value s in
  h_requests h = [PostChatResume cid value]
  /\ (exists content later,
        messages (h_state h) = messages s ++ user_entry content :: later
        /\ (forall name, Js.prop (Some option) (js "name") = Some name ->
                         Js.truthy name = true -> content = name)
        /\ (forall name, Js.prop (Some option) (js "name") = Some name ->
                         Js.truthy name = false ->
                         content = JStr (js "Option " ++ ofZ (Z.of_nat i)))
        /\ (Js.prop (Some option) (js "name") = None ->
            content = JStr (js "Option " ++ ofZ (Z.of_nat i)))).
Proof.
  intros Hcid Hint Hty Hopts Hnth value h. subst h value.
  unfold handleInterruptResponse. rewrite Hcid, Hint.
  destruct (resumeChat JSON_parse fetch cid (JNum (Z.of_nat i)))
    as [request g] eqn:Eg.
  cbn [h_requests h_state]. split.
  - unfold resumeChat in Eg. now injection Eg as <- _.
  - destruct (try_stream_appends s g
                (handleInterruptResponse_prologue currentInterrupt
                   (JNum (Z.of_nat i)) s)) as [later Hlater].
    exists (responseText currentInterrupt (JNum (Z.of_nat i))), later.
    split.
    + rewrite Hlater. cbn. now rewrite <- app_assoc.
    + assert (Hsel : Js.index options (JNum (Z.of_nat i)) = Some option).
      { rewrite index_in_range; [exact Hnth|].
        apply nth_error_Some. now rewrite Hnth. }
      unfold responseText. rewrite Hty, eqb_refl, Hopts, Hsel.
      split; [|split].
      * intros name Hname Htruthy. now rewrite Hname, Htruthy.
      * intros name Hname Hfalsy. now rewrite Hname, Hfalsy.
      * intros Hnone. now rewrite Hnone.
Qed.


End ControllerClaims.

(* ================================================================== *)
(** * The claims on concrete streams and states *)

Module OnScenario.
Import Scenario.

Lemma C2_witness :
  yielded (streamChat_loop JSON_parse TextDecoder.create [] pieces) =
  yielded (streamChat_loop JSON_parse TextDecoder.create [] whole)
  /\ yielded (streamChat_loop JSON_parse TextDecoder.create [] whole) =
     [with_id (event "step") "A"; with_id (event "step") "B"].
Proof.
  split.
  - apply (@C2_chunking_is_invisible JSON_parse pieces whole). reflexivity.
  - reflexivity.
Defined.

Lemma C3_witness :
  yielded (items (snd (streamChat JSON_parse
                         (always (Response 200 (Some (mkBody pieces EndOfStream))))
                         (js "hi") None))) =
  parsed JSON_parse
    (frames (complete_lines (decoded (List.concat pieces)))).
Proof.
  apply (@C3_only_data_frames JSON_parse
           (always (Response 200 (Some (mkBody pieces EndOfStream))))
           (js "hi") None 200%Z (mkBody pieces EndOfStream));
    reflexivity.
Defined.

Lemma C4_witness :
  yielded (items (snd (streamChat JSON_parse
                         (serving [frame_step; frame_bad; frame_result])
                         (js "hi") None))) =
  [step_event; result_event].
Proof.
  apply (@C4_parse_failure_is_local JSON_parse
           (serving [frame_step; frame_bad; frame_result]) (js "hi") None
           200%Z (mkBody (map bytes_of [frame_step; frame_bad; frame_result])
                       EndOfStream)
           [js "data: " ++ js (wire "{'type':'step','step':'Analyzing','content':'Looking at options'}")]
           [js "data: " ++ js (wire "{'type':'result','content':'Done','itinerary':{'destination':'Kyoto'}}")]
           (js "not-json"));
    reflexivity.
Defined.

Lemma C10_witness :
  snd (streamChat JSON_parse (serving [frame_step; frame_bad; frame_result])
         (js "hi") None) =
  snd (resumeChat JSON_parse (serving [frame_step; frame_bad; frame_result])
         (js "c1") (JNum 1)).
Proof.
  apply (@C10_one_decoder JSON_parse
           (serving [frame_step; frame_bad; frame_result])
           (js "hi") None (js "c1") (JNum 1)).
  reflexivity.
Defined.

Lemma C9_witness :
  h_requests (handleInterruptResponse JSON_parse (serving []) (JNum 1) awaiting)
  = [PostChatResume (js "c1") (JNum 1)]
  /\ exists later,
       messages (h_state (handleInterruptResponse JSON_parse (serving [])
                            (JNum 1) awaiting)) =
       messages awaiting ++ user_entry (JStr (js "Lisbon")) :: later.
Proof.
  destruct (@C9_destination_answer JSON_parse (serving []) awaiting
              (js "c1") pending
              [JObj [(js "name", JStr (js "Kyoto"))];
               JObj [(js "name", JStr (js "Lisbon"))]]
              1%nat (JObj [(js "name", JStr (js "Lisbon"))])
              eq_refl eq_refl eq_refl eq_refl eq_refl)
    as [Hreq [content [later [Hlog [Hname _]]]]].
  split; [exact Hreq|].
  exists later.
  rewrite <- (Hname (JStr (js "Lisbon")) eq_refl eq_refl). exact Hlog.
Defined.


(** C6, as stated, fails: answering in the idle state, with no interrupt held
    and no identifier bound, is not an error -- the call returns normally. *)
Lemma C6_answer_when_idle_is_no_error :
  stream_state initial = Idle
  /\ h_completion
       (handleInterruptResponse JSON_parse (serving []) (JNum 1) initial)
     = Returned.
Proof. split; reflexivity. Qed.

(** C7, as stated, fails: called while an answer is awaited, [handleSubmit]
    opens a start stream. *)
Lemma C7_submit_while_awaiting_opens_a_stream :
  stream_state (setInput (js "hi") awaiting) = AwaitingHumanInput
  /\ h_requests (handleSubmit JSON_parse (serving []) (setInput (js "hi") awaiting))
     = [PostChatStream (js "hi") (Some (js "c1"))].
Proof. split; reflexivity. Qed.

(** C1 on the code.  The handler keeps reading the identifier of the render
    that started the stream.  In a first stream, started while nothing is
    bound, an event that carries [A] binds it, and a later event that
    carries [B] binds [B] over it. *)
Lemma C1_first_stream_rebinds :
  let after_A := handleStreamEvent initial (with_id (event "step") "A") initial in
  conversationId after_A = Some (js "A")
  /\ conversationId
       (handleStreamEvent initial (with_id (event "step") "B") after_A)
     = Some (js "B")
  /\ conversationId
       (h_state (handleSubmit JSON_parse (serving [frame_A; frame_B]) typed))
     = Some (js "B").
Proof. repeat split. Qed.

(** The scenario of a step followed by a result, from the wire to the state:
    the counter ends at 8 after passing through 1, the log gains the user's
    text, a step entry and a result entry, and the state is idle. *)
Example step_then_result :
  let h := handleSubmit JSON_parse (serving [frame_step; frame_result]) typed in
  map msg_type (messages (h_state h)) =
    [MessageType.user; MessageType.step; MessageType.result]
  /\ currentStep (h_state h) = 8%Z
  /\ stream_state (h_state h) = Idle
  /\ currentStep (handleStreamEvent typed step_event
                    (handleSubmit_prologue (js "hi") typed)) = 1%Z.
Proof. repeat split. Qed.

End OnScenario.

(* ================================================================== *)
(** * Further facts about the fold of events *)

(** An event carries one of the eleven tags of the [switch], or none. *)
Lemma tag_cases (event : StreamEvent) :
  (exists tag, In tag all_tags /\ ev_type event = js tag)
  \/ (forall tag, In tag all_tags -> type_is event tag = false).
Proof.
  assert (D : forall tags : list string,
             (exists tag, In tag tags /\ ev_type event = js tag)
             \/ (forall tag, In tag tags -> type_is event tag = false)).
  { induction tags as [|t tags IH].
    - right. intros tag [].
    - destruct (type_is event t) eqn:Et.
      + left. exists t. split; [now left | now apply eqb_eq].
      + destruct IH as [[tag [Hin Htag]]|Hnone].
        * left. exists tag. split; [now right | exact Htag].
        * right. intros tag [<-|Hin]; [exact Et | now apply Hnone]. }
  apply D.
Qed.

Ltac unfold_tags :=
  unfold is_progress, is_result, is_interrupt, progress_kinds in *;
  cbn [existsb fst] in *;
  unfold handleStreamEvent, type_is in *.

(** Splits a goal about [handleStreamEvent render event s] by the tag of
    the event; every case is left with the tag tests evaluated. *)
Ltac by_tag event :=
  let H := fresh "Htag" in
  destruct (tag_cases event) as [[? [H ?]]|H];
  [ cbn in H;
    repeat (destruct H as [<-|H]; [|]); [..|destruct H];
    unfold_tags;
    match goal with E : ev_type event = _ |- _ => rewrite E end; cbn
  | pose proof (H "resume"%string ltac:(cbn; tauto));
    pose proof (H "system"%string ltac:(cbn; tauto));
    pose proof (H "message"%string ltac:(cbn; tauto));
    pose proof (H "interrupt"%string ltac:(cbn; tauto));
    pose proof (H "step"%string ltac:(cbn; tauto));
    pose proof (H "research"%string ltac:(cbn; tauto));
    pose proof (H "analysis"%string ltac:(cbn; tauto));
    pose proof (H "season"%string ltac:(cbn; tauto));
    pose proof (H "planning"%string ltac:(cbn; tauto));
    pose proof (H "result"%string ltac:(cbn; tauto));
    pose proof (H "error"%string ltac:(cbn; tauto));
    clear H; unfold_tags;
    repeat match goal with
      | E : JsString.eqb (ev_type event) _ = false |- _ => rewrite E; clear E
      end; cbn ].

Ltac split_ifs :=
  repeat match goal with
    | |- context [if ?b then _ else _] => destruct b
    | |- context [match ev_content ?e with _ => _ end] =>
        destruct (ev_content e) as [[|? ?]|]
    end.

(** What one event does to the step counter. *)
Lemma handleStreamEvent_counter (render : State) (event : StreamEvent) (s : State) :
  currentStep (handleStreamEvent render event s) =
  if is_result event then 8%Z
  else if is_progress event then (currentStep s + 1)%Z
  else currentStep s.
Proof. by_tag event; split_ifs; reflexivity. Qed.

(** What one event does to the held interrupt. *)
Lemma handleStreamEvent_pending (render : State) (event : StreamEvent) (s : State) :
  is_some (interruptData (handleStreamEvent render event s)) =
  is_interrupt event || is_some (interruptData s).
Proof. by_tag event; split_ifs; reflexivity. Qed.

(** An event appends at most one entry. *)
Lemma handleStreamEvent_appends_one (render : State) (event : StreamEvent)
    (s : State) :
  exists more,
    messages (handleStreamEvent render event s) = messages s ++ more
    /\ (List.length more <= 1)%nat.
Proof.
  split_event_cases; cbn;
    first [ exists []; split; [now rewrite app_nil_r | cbn; lia]
          | eexists; split; [reflexivity | cbn; lia] ].
Qed.

Lemma for_await_app (render : State) (a b : list GenItem) (s : State) :
  for_await render (a ++ b) s = for_await render b (for_await render a s).
Proof.
  revert s. induction a as [|[event|payload] a IH]; intros s; simpl;
    [reflexivity | apply IH | apply IH].
Qed.

(** The fold sees the yielded events only. *)
Lemma for_await_yielded (render : State) (l : list GenItem) (s : State) :
  for_await render l s = for_await render (map Yield (yielded l)) s.
Proof.
  revert s. induction l as [|[event|payload] l IH]; intros s; simpl;
    [reflexivity | apply IH | apply IH].
Qed.

Lemma for_await_appends_bounded (render : State) (l : list GenItem) :
  forall s, exists more,
    messages (for_await render l s) = messages s ++ more
    /\ (List.length more <= List.length (yielded l))%nat.
Proof.
  induction l as [|[event|payload] l IH]; intros s; simpl.
  - exists []. split; [now rewrite app_nil_r | reflexivity].
  - destruct (IH (handleStreamEvent render event s)) as [m2 [H2 L2]].
    destruct (handleStreamEvent_appends_one render event s) as [m1 [H1 L1]].
    exists (m1 ++ m2). split.
    + now rewrite H2, H1, app_assoc.
    + rewrite length_app. lia.
  - apply IH.
Qed.

Lemma try_stream_appends_bounded (render : State) (g : Generated) (s : State) :
  exists more,
    messages (try_stream render g s) = messages s ++ more
    /\ (List.length more <= 1 + List.length (yielded (items g)))%nat.
Proof.
  unfold try_stream.
  destruct (for_await_appends_bounded render (items g) s) as [m [H L]].
  destruct (completion g); cbn; rewrite H.
  - exists m. split; [reflexivity | lia].
  - exists (m ++ [error_entry]). split; [now rewrite app_assoc|].
    rewrite length_app. cbn. lia.
Qed.

Lemma for_await_pending (render : State) (l : list GenItem) :
  forall s,
  is_some (interruptData (for_await render l s)) =
  existsb is_interrupt (yielded l) || is_some (interruptData s).
Proof.
  induction l as [|[event|payload] l IH]; intros s; simpl;
    [reflexivity| |apply IH].
  rewrite IH, handleStreamEvent_pending.
  now rewrite orb_assoc, (orb_comm (existsb _ _)).
Qed.

Lemma try_stream_state (render : State) (g : Generated) (s : State) :
  interruptData s = None ->
  stream_state (try_stream render g s) =
  if existsb is_interrupt (yielded (items g)) then AwaitingHumanInput else Idle.
Proof.
  intros Hnone.
  pose proof (for_await_pending render (items g) s) as H.
  rewrite Hnone, orb_false_r in H.
  unfold try_stream, stream_state.
  destruct (completion g); cbn;
    destruct (interruptData (for_await render (items g) s));
    cbn in H; now rewrite <- H.
Qed.

Lemma for_await_counter_no_result (render : State) (l : list GenItem) :
  existsb is_result (yielded l) = false ->
  forall s,
  currentStep (for_await render l s) =
  (currentStep s + count_progress (yielded l))%Z.
Proof.
  unfold count_progress.
  induction l as [|[event|payload] l IH]; intros Hres s; simpl in *.
  - lia.
  - apply orb_false_iff in Hres as [Hev Hl].
    rewrite (IH Hl), handleStreamEvent_counter, Hev.
    destruct (is_progress event); cbn [List.length]; lia.
  - now apply IH.
Qed.

Lemma for_await_counter_result (render : State) (before after : list GenItem)
    (event : StreamEvent) (s : State) :
  is_result event = true ->
  existsb is_result (yielded after) = false ->
  currentStep (for_await render (before ++ Yield event :: after) s) =
  (8 + count_progress (yielded after))%Z.
Proof.
  intros Hres Hafter. rewrite for_await_app. cbn [for_await].
  rewrite (for_await_counter_no_result _ _ Hafter), handleStreamEvent_counter.
  now rewrite Hres.
Qed.

Lemma yielded_map_Yield (l : list StreamEvent) : yielded (map Yield l) = l.
Proof. induction l as [|e l IH]; simpl; [reflexivity | now rewrite IH]. Qed.

(* ================================================================== *)
(** * Further properties of the controller *)

Section ControllerProperties.

Variable JSON_parse : jsstring -> option StreamEvent.
Variable fetch : Request -> FetchResult.

Lemma handleSubmit_runs (s : State) :
  JsString.truthy (trim (input s)) = true -> isLoading s = false ->
  h_state (handleSubmit JSON_parse fetch s) =
  try_stream s
    (snd (streamChat JSON_parse fetch (trim (input s))
            (or_undefined (conversationId s))))
    (handleSubmit_prologue (trim (input s)) s).
Proof.
  intros Hin Hload. unfold handleSubmit. rewrite Hin, Hload. cbn [negb orb].
  now destruct (streamChat JSON_parse fetch (trim (input s))
                  (or_undefined (conversationId s))).
Qed.

Lemma handleInterruptResponse_runs (value : JSON) (s : State)
    (cid : jsstring) (currentInterrupt : InterruptData) :
  or_undefined (conversationId s) = Some cid ->
  interruptData s = Some currentInterrupt ->
  h_state (handleInterruptResponse JSON_parse fetch value s) =
  try_stream s (snd (resumeChat JSON_parse fetch cid value))
    (handleInterruptResponse_prologue currentInterrupt value s).
Proof.
  intros Hcid Hint. unfold handleInterruptResponse. rewrite Hcid, Hint.
  now destruct (resumeChat JSON_parse fetch cid value).
Qed.

(** X1. The log is append-only.  Whatever the transport delivers, a call of
    either handler leaves every earlier entry in place and in order, and adds
    at most the echo of the user's text, one entry per event received and one
    error entry. *)
Theorem X1_log_is_append_only (value : JSON) (s : State) :
  (exists more,
     messages (h_state (handleSubmit JSON_parse fetch s)) = messages s ++ more
     /\ (List.length more <= 2 + List.length (submit_events JSON_parse fetch s))%nat)
  /\ (exists more,
     messages (h_state (handleInterruptResponse JSON_parse fetch value s))
     = messages s ++ more
     /\ (List.length more <=
         match or_undefined (conversationId s) with
         | Some cid => 2 + List.length (answer_events JSON_parse fetch cid value)
         | None => 0
         end)%nat).
Proof.
  unfold submit_events, answer_events.
  split.
  - destruct (negb (JsString.truthy (trim (input s))) || isLoading s) eqn:G.
    + unfold handleSubmit. rewrite G. exists []. cbn.
      split; [now rewrite app_nil_r | lia].
    + apply orb_false_iff in G as [Hin Hload].
      apply negb_false_iff in Hin.
      rewrite (handleSubmit_runs _ Hin Hload).
      destruct (try_stream_appends_bounded s
                  (snd (streamChat JSON_parse fetch (trim (input s))
                          (or_undefined (conversationId s))))
                  (handleSubmit_prologue (trim (input s)) s)) as [m [H L]].
      exists (user_entry (JStr (trim (input s))) :: m). split.
      * rewrite H. cbn. now rewrite <- app_assoc.
      * cbn [List.length]. lia.
  - destruct (or_undefined (conversationId s)) as [cid|] eqn:Hcid.
    + destruct (interruptData s) as [ci|] eqn:Hint.
      * rewrite (handleInterruptResponse_runs _ _ Hcid Hint).
        destruct (try_stream_appends_bounded s
                    (snd (resumeChat JSON_parse fetch cid value))
                    (handleInterruptResponse_prologue ci value s))
          as [m [H L]].
        exists (user_entry (responseText ci value) :: m). split.
        -- rewrite H. cbn. now rewrite <- app_assoc.
        -- cbn [List.length]. lia.
      * unfold handleInterruptResponse. rewrite Hcid, Hint. exists []. cbn.
        split; [now rewrite app_nil_r | lia].
    + unfold handleInterruptResponse. rewrite Hcid. exists []. cbn.
      split; [now rewrite app_nil_r | lia].
Qed.

(** X2. An interrupt outlives its stream.  A call that opens a stream ends
    awaiting an answer exactly when the stream yielded an interrupt event,
    and idle otherwise -- whatever follows the interrupt in the stream (an
    error event, further events) and however the stream ends (a rejected read
    included). *)
Theorem X2_interrupt_outlives_the_stream (value : JSON) (s : State) :
  (JsString.truthy (trim (input s)) = true -> isLoading s = false ->
   stream_state (h_state (handleSubmit JSON_parse fetch s)) =
   if existsb is_interrupt (submit_events JSON_parse fetch s)
   then AwaitingHumanInput else Idle)
  /\ (forall cid currentInterrupt,
      or_undefined (conversationId s) = Some cid ->
      interruptData s = Some currentInterrupt ->
      stream_state (h_state (handleInterruptResponse JSON_parse fetch value s))
      = if existsb is_interrupt (answer_events JSON_parse fetch cid value)
        then AwaitingHumanInput else Idle).
Proof.
  unfold submit_events, answer_events.
  split.
  - intros Hin Hload. rewrite (handleSubmit_runs _ Hin Hload).
    now apply try_stream_state.
  - intros cid ci Hcid Hint.
    rewrite (handleInterruptResponse_runs _ _ Hcid Hint).
    now apply try_stream_state.
Qed.

Lemma try_stream_counter (render : State) (g : Generated) (s : State) :
  currentStep (try_stream render g s) =
  currentStep (for_await render (map Yield (yielded (items g))) s).
Proof.
  unfold try_stream. rewrite <- for_await_yielded.
  now destruct (completion g).
Qed.

(** X3. The step counter of a turn.  After a submission whose stream yields
    no result event, the counter is the number of progress-bearing events
    received; after an answer it is the counter as it stood plus that number.
    When a result is received, by a submission or by an answer, the counter
    ends at 8 plus the number of progress-bearing events that follow the last
    result: it is not capped at 8. *)
Theorem X3_counter_counts_progress (value : JSON) (s : State) :
  (JsString.truthy (trim (input s)) = true -> isLoading s = false ->
   (existsb is_result (submit_events JSON_parse fetch s) = false ->
    currentStep (h_state (handleSubmit JSON_parse fetch s)) =
    count_progress (submit_events JSON_parse fetch s))
   /\ (forall before event after,
       submit_events JSON_parse fetch s = before ++ event :: after ->
       is_result event = true ->
       existsb is_result after = false ->
       currentStep (h_state (handleSubmit JSON_parse fetch s)) =
       (8 + count_progress after)%Z))
  /\ (forall cid currentInterrupt,
      or_undefined (conversationId s) = Some cid ->
      interruptData s = Some currentInterrupt ->
      (existsb is_result (answer_events JSON_parse fetch cid value) = false ->
       currentStep (h_state (handleInterruptResponse JSON_parse fetch value s))
       = (currentStep s
          + count_progress (answer_events JSON_parse fetch cid value))%Z)
      /\ (forall before event after,
          answer_events JSON_parse fetch cid value = before ++ event :: after ->
          is_result event = true ->
          existsb is_result after = false ->
          currentStep (h_state (handleInterruptResponse JSON_parse fetch value s))
          = (8 + count_progress after)%Z)).
Proof.
  unfold submit_events, answer_events.
  split.
  - intros Hin Hload. rewrite (handleSubmit_runs _ Hin Hload).
    rewrite try_stream_counter. split.
    + intros Hres.
      rewrite for_await_counter_no_result
        by now rewrite yielded_map_Yield.
      now rewrite yielded_map_Yield.
    + intros before event after Hsplit Hres Hafter.
      rewrite Hsplit, map_app. cbn [map].
      rewrite for_await_counter_result;
        rewrite ?yielded_map_Yield; auto.
  - intros cid ci Hcid Hint.
    rewrite (handleInterruptResponse_runs _ _ Hcid Hint), try_stream_counter.
    split.
    + intros Hres.
      rewrite for_await_counter_no_result by now rewrite yielded_map_Yield.
      now rewrite yielded_map_Yield.
    + intros before event after Hsplit Hres Hafter.
      rewrite Hsplit, map_app. cbn [map].
      rewrite for_await_counter_result;
        rewrite ?yielded_map_Yield; auto.
Qed.

(** X4. A bound identifier is kept and sent.  From a render that holds an
    identifier, every request that either handler sends carries exactly that
    identifier, and no event of the stream it opens changes it. *)
Theorem X4_bound_identifier_is_kept_and_sent (value : JSON) (s : State) :
  bound s = true ->
  (conversationId (h_state (handleSubmit JSON_parse fetch s)) = conversationId s
   /\ forall request,
        In request (h_requests (handleSubmit JSON_parse fetch s)) ->
        request = PostChatStream (trim (input s)) (conversationId s))
  /\ (conversationId (h_state (handleInterruptResponse JSON_parse fetch value s))
      = conversationId s
      /\ forall request,
           In request (h_requests (handleInterruptResponse JSON_parse fetch value s)) ->
           exists cid, conversationId s = Some cid
                       /\ request = PostChatResume cid value).
Proof.
  intros Hb.
  destruct (bound_render_never_rebinds JSON_parse fetch s) as [Hsub Hans].
  assert (Hid : or_undefined (conversationId s) = conversationId s).
  { unfold bound in Hb. now destruct (conversationId s) as [[|? ?]|]. }
  split; split.
  - now apply Hsub.
  - unfold handleSubmit.
    destruct (negb (JsString.truthy (trim (input s))) || isLoading s);
      [intros request []|].
    destruct (streamChat JSON_parse fetch (trim (input s))
                (or_undefined (conversationId s))) as [r g] eqn:Eg.
    unfold streamChat in Eg. injection Eg as <- _.
    rewrite or_null_or_undefined, Hid.
    intros request [<-|[]]. reflexivity.
  - apply Hans.
  - unfold handleInterruptResponse.
    destruct (or_undefined (conversationId s)) as [cid|] eqn:Hcid;
      [|intros request []].
    destruct (interruptData s); [|intros request []].
    destruct (resumeChat JSON_parse fetch cid value) as [r g] eqn:Eg.
    unfold resumeChat in Eg. injection Eg as <- _.
    intros request [<-|[]]. exists cid. split; [congruence | reflexivity].
Qed.

End ControllerProperties.

(* ================================================================== *)
(** * The guards of the two handlers and the counter over a call *)



Lemma try_stream_pending (render : State) (g : Generated) (s : State) :
  interruptData s = None ->
  is_some (interruptData (try_stream render g s)) =
  existsb is_interrupt (yielded (items g)).
Proof.
  intros Hnone.
  pose proof (for_await_pending render (items g) s) as H.
  rewrite Hnone, orb_false_r in H.
  unfold try_stream. now destruct (completion g).
Qed.


Section GuardClaims.

Variable JSON_parse : jsstring -> option StreamEvent.
Variable fetch : Request -> FetchResult.


(** C6, as the code has it. [handleInterruptResponse] acts only from a
    render that holds both an interrupt and a bound identifier.  From any
    other render it returns normally, with the state untouched and nothing
    sent.  When it acts it sends one resume request and returns normally; it
    clears the interrupt before the request goes out, and the state the call
    ends in is the fold of the stream over that cleared state: it holds an
    interrupt only if the resume stream brought a new one.  So an answer
    given again, from the render after the clearing or, when the stream
    brought no new interrupt, from the state the call ends in, is ignored in
    the same silent way. *)
Theorem C6_answer_guard (value : JSON) (s : State) :
  (or_undefined (conversationId s) = None \/ interruptData s = None ->
   handleInterruptResponse JSON_parse fetch value s = mkHandled s [] Returned)
  /\ (forall cid currentInterrupt,
      or_undefined (conversationId s) = Some cid ->
      interruptData s = Some currentInterrupt ->
      let h := handleInterruptResponse JSON_parse fetch value s in
      let s1 := handleInterruptResponse_prologue currentInterrupt value s in
      h_requests h = [PostChatResume cid value]
      /\ h_completion h = Returned
      /\ h_state h =
         try_stream s (snd (resumeChat JSON_parse fetch cid value)) s1
      /\ interruptData s1 = None
      /\ (forall again,
            handleInterruptResponse JSON_parse fetch again s1 =
            mkHandled s1 [] Returned)
      /\ is_some (interruptData (h_state h)) =
         existsb is_interrupt (answer_events JSON_parse fetch cid value)
      /\ (existsb is_interrupt (answer_events JSON_parse fetch cid value)
          = false ->
          forall again,
            handleInterruptResponse JSON_parse fetch again (h_state h) =
            mkHandled (h_state h) [] Returned)).
Proof.
  split.
  - unfold handleInterruptResponse. intros [H|H]; rewrite H; [reflexivity|].
    now destruct (or_undefined (conversationId s)).
  - intros cid currentInterrupt Hcid Hint h s1.
    assert (Hstate : h_state h =
              try_stream s (snd (resumeChat JSON_parse fetch cid value)) s1)
      by (subst h s1; now apply handleInterruptResponse_runs).
    assert (Hpend : is_some (interruptData (h_state h)) =
              existsb is_interrupt (answer_events JSON_parse fetch cid value)).
    { rewrite Hstate. unfold answer_events.
      now apply try_stream_pending. }
    split; [|split; [|split; [exact Hstate|split; [reflexivity|split; [|split]]]]].
    + subst h. unfold handleInterruptResponse. rewrite Hcid, Hint.
      destruct (resumeChat JSON_parse fetch cid value) as [request g] eqn:Eg.
      unfold resumeChat in Eg. now injection Eg as <- _.
    + subst h. unfold handleInterruptResponse. rewrite Hcid, Hint.
      now destruct (resumeChat JSON_parse fetch cid value).
    + intros again. subst s1. unfold handleInterruptResponse. cbn.
      now destruct (or_undefined (conversationId s)).
    + exact Hpend.
    + intros Hnone again. rewrite Hnone in Hpend.
      unfold handleInterruptResponse.
      destruct (interruptData (h_state h)); [discriminate|].
      now destruct (or_undefined (conversationId (h_state h))).
Qed.

(** C7, as the code has it. [handleSubmit] returns normally, with the state
    untouched and nothing sent, when a stream is loading or the trimmed input
    is empty.  In every other render it opens exactly one start stream, a
    pending interrupt included, which it clears: the state the call ends in
    is the fold of the stream over the cleared state, and holds an interrupt
    only if the new stream brought one.  It is the form that keeps a message
    from being submitted while an answer is awaited: its text box is enabled
    exactly in the idle state, and its button exactly in the idle state with
    a non-blank input. *)
Theorem C7_submit_guard (s : State) :
  (isLoading s = true \/ trim (input s) = [] ->
   handleSubmit JSON_parse fetch s = mkHandled s [] Returned)
  /\ (isLoading s = false -> trim (input s) <> [] ->
      let h := handleSubmit JSON_parse fetch s in
      let s1 := handleSubmit_prologue (trim (input s)) s in
      h_requests h =
        [PostChatStream (trim (input s)) (or_undefined (conversationId s))]
      /\ h_completion h = Returned
      /\ h_state h =
         try_stream s
           (snd (streamChat JSON_parse fetch (trim (input s))
                   (or_undefined (conversationId s)))) s1
      /\ interruptData s1 = None
      /\ is_some (interruptData (h_state h)) =
         existsb is_interrupt (submit_events JSON_parse fetch s))
  /\ (input_disabled s = false <-> stream_state s = Idle)
  /\ (submit_disabled s = false <->
      stream_state s = Idle /\ trim (input s) <> []).
Proof.
  split; [|split; [|split]].
  - unfold handleSubmit. intros [H|H]; rewrite H.
    + now rewrite orb_true_r.
    + reflexivity.
  - intros Hload Hinput h s1.
    assert (Hin : JsString.truthy (trim (input s)) = true)
      by (destruct (trim (input s)); [congruence | reflexivity]).
    assert (Hstate : h_state h =
              try_stream s
                (snd (streamChat JSON_parse fetch (trim (input s))
                        (or_undefined (conversationId s)))) s1)
      by (subst h s1; now apply handleSubmit_runs).
    split; [|split; [|split; [exact Hstate|split; [reflexivity|]]]].
    + subst h. unfold handleSubmit. rewrite Hin, Hload. cbn [negb orb].
      destruct (streamChat JSON_parse fetch (trim (input s))
                  (or_undefined (conversationId s))) as [request g] eqn:Eg.
      unfold streamChat in Eg. injection Eg as <- _.
      now rewrite or_null_or_undefined.
    + subst h. unfold handleSubmit. rewrite Hin, Hload. cbn [negb orb].
      now destruct (streamChat JSON_parse fetch (trim (input s))
                      (or_undefined (conversationId s))).
    + rewrite Hstate. unfold submit_events. now apply try_stream_pending.
  - unfold input_disabled, stream_state.
    destruct (isLoading s), (interruptData s); cbn; split; congruence.
  - unfold submit_disabled, stream_state.
    destruct (isLoading s), (interruptData s), (trim (input s)); cbn;
      split; try congruence; try (intros [? ?]; congruence);
      try (intros _; split; congruence).
Qed.

End GuardClaims.

Module OnScenarioGuards.
Import Scenario.


Lemma C6_witness :
  handleInterruptResponse JSON_parse (serving []) (JNum 1) initial =
  mkHandled initial [] Returned
  /\ h_requests (handleInterruptResponse JSON_parse (serving []) (JNum 1) awaiting)
     = [PostChatResume (js "c1") (JNum 1)]
  /\ interruptData
       (h_state (handleInterruptResponse JSON_parse (serving [frame_step])
                   (JNum 1) awaiting)) = None
  /\ handleInterruptResponse JSON_parse (serving [frame_step]) (JNum 0)
       (h_state (handleInterruptResponse JSON_parse (serving [frame_step])
                   (JNum 1) awaiting))
     = mkHandled
         (h_state (handleInterruptResponse JSON_parse (serving [frame_step])
                     (JNum 1) awaiting)) [] Returned.
Proof.
  split; [|split; [|split]].
  - apply (proj1 (C6_answer_guard JSON_parse (serving []) (JNum 1) initial)).
    left. reflexivity.
  - apply (proj2 (C6_answer_guard JSON_parse (serving []) (JNum 1) awaiting)
             (js "c1") pending); reflexivity.
  - destruct (proj2 (C6_answer_guard JSON_parse (serving [frame_step])
                       (JNum 1) awaiting)
                (js "c1") pending eq_refl eq_refl)
      as [_ [_ [_ [_ [_ [Hpend _]]]]]].
    destruct (interruptData
                (h_state (handleInterruptResponse JSON_parse
                            (serving [frame_step]) (JNum 1) awaiting)));
      [discriminate Hpend | reflexivity].
  - apply (proj2 (C6_answer_guard JSON_parse (serving [frame_step])
                    (JNum 1) awaiting)
             (js "c1") pending eq_refl eq_refl).
    reflexivity.
Defined.

Lemma C7_witness :
  handleSubmit JSON_parse (serving []) loading = mkHandled loading [] Returned
  /\ h_requests (handleSubmit JSON_parse (serving []) typed)
     = [PostChatStream (js "hi") None]
  /\ is_some
       (interruptData
          (h_state (handleSubmit JSON_parse (serving [frame_step])
                      (setInput (js "hi") awaiting)))) = false.
Proof.
  split; [|split].
  - apply (proj1 (C7_submit_guard JSON_parse (serving []) loading)).
    left. reflexivity.
  - apply (proj1 (proj2 (C7_submit_guard JSON_parse (serving []) typed)));
      [reflexivity | discriminate].
  - rewrite (proj2 (proj2 (proj2 (proj2
               (proj1 (proj2 (C7_submit_guard JSON_parse (serving [frame_step])
                                (setInput (js "hi") awaiting)))
                  eq_refl ltac:(discriminate)))))).
    reflexivity.
Defined.

End OnScenarioGuards.

(* ================================================================== *)
(** * Further properties of single events and answers *)

Lemma startsWith_spec (s p : jsstring) :
  startsWith s p = true <-> exists after, s = p ++ after.
Proof.
  split.
  - intros H. exists (skipn (List.length p) s). now apply startsWith_inv.
  - intros [after ->]. apply startsWith_app.
Qed.

(** [includes] finds an occurrence anywhere in the string. *)
Lemma includes_spec (s p : jsstring) :
  includes s p = true <-> occurs_in p s.
Proof.
  unfold occurs_in. split.
  - induction s as [|c s IH]; cbn [includes]; intros H.
    + rewrite orb_false_r in H. apply startsWith_spec in H as [after H].
      now exists [], after.
    + apply orb_true_iff in H as [H|H].
      * apply startsWith_spec in H as [after H]. now exists [], after.
      * destruct (IH H) as [before [after E]].
        exists (c :: before), after. now rewrite E.
  - intros [before [after ->]].
    induction before as [|c before IH].
    + cbn [app].
      assert (H : startsWith (p ++ after) p = true) by apply startsWith_app.
      destruct (p ++ after); cbn [includes]; now rewrite H.
    + cbn [app includes]. rewrite IH. apply orb_true_r.
Qed.

Lemma includes_false (s p : jsstring) :
  includes s p = false <-> ~ occurs_in p s.
Proof.
  rewrite <- includes_spec. now destruct (includes s p).
Qed.

(** X5. Events the [switch] has no body for are inert.  An event whose tag
    is [resume], or any text outside the ten handled tags (the comparison is
    exact, so a tag in another letter case is such a text), changes nothing
    but, at most, the identifier. *)
Theorem X5_unhandled_events_are_inert (render : State) (event : StreamEvent)
    (s : State) :
  (forall tag, In tag handled_tags -> type_is event tag = false) ->
  handleStreamEvent render event s =
  if carries_id event && negb (bound render)
  then setConversationId (ev_conversation_id event) s else s.
Proof.
  intros H.
  pose proof (H "system"%string ltac:(cbn; tauto)) as H1.
  pose proof (H "message"%string ltac:(cbn; tauto)) as H2.
  pose proof (H "interrupt"%string ltac:(cbn; tauto)) as H3.
  pose proof (H "step"%string ltac:(cbn; tauto)) as H4.
  pose proof (H "research"%string ltac:(cbn; tauto)) as H5.
  pose proof (H "analysis"%string ltac:(cbn; tauto)) as H6.
  pose proof (H "season"%string ltac:(cbn; tauto)) as H7.
  pose proof (H "planning"%string ltac:(cbn; tauto)) as H8.
  pose proof (H "result"%string ltac:(cbn; tauto)) as H9.
  pose proof (H "error"%string ltac:(cbn; tauto)) as H10.
  unfold handleStreamEvent, carries_id, bound.
  rewrite H1, H2, H3, H4, H5, H6, H7, H8, H9, H10.
  now destruct (type_is event "resume").
Qed.

(** X6. The filter on narration.  A [system] event is logged exactly when
    its content is non-empty and holds neither [Starting] nor [Processing]
    anywhere in it; a [message] event is logged whenever its content is
    non-empty, those two words included. *)
Theorem X6_narration_filter (render : State) (event : StreamEvent) (s : State)
    (content : jsstring) :
  ev_content event = Some content ->
  (type_is event "system" = true ->
   (content <> [] ->
    ~ occurs_in (js "Starting") content ->
    ~ occurs_in (js "Processing") content ->
    messages (handleStreamEvent render event s) =
    messages s ++ [system_entry content])
   /\ (content = [] \/ occurs_in (js "Starting") content
       \/ occurs_in (js "Processing") content ->
       messages (handleStreamEvent render event s) = messages s))
  /\ (type_is event "message" = true ->
      content <> [] ->
      messages (handleStreamEvent render event s) =
      messages s ++ [system_entry content]).
Proof.
  intros Hc. split.
  - intros Hty. apply type_is_eq in Hty. split.
    + intros Hne Hs Hp.
      apply includes_false in Hs. apply includes_false in Hp.
      unfold handleStreamEvent, type_is. rewrite Hty, Hc.
      destruct content as [|c r]; [congruence|].
      rewrite Hs, Hp. cbn.
      match goal with
      | |- context [if ?b then setConversationId _ _ else _] => destruct b
      end; reflexivity.
    + intros Hwhy.
      unfold handleStreamEvent, type_is. rewrite Hty, Hc.
      destruct content as [|c r].
      * cbn. match goal with
             | |- context [if ?b then setConversationId _ _ else _] =>
                 destruct b
             end; reflexivity.
      * destruct Hwhy as [Hnil|[Hs|Hp]]; [discriminate| |].
        -- apply includes_spec in Hs. rewrite Hs. cbn.
           match goal with
           | |- context [if ?b then setConversationId _ _ else _] =>
               destruct b
           end; reflexivity.
        -- apply includes_spec in Hp. rewrite Hp, andb_false_r. cbn.
           match goal with
           | |- context [if ?b then setConversationId _ _ else _] =>
               destruct b
           end; reflexivity.
  - intros Hty Hne. apply type_is_eq in Hty.
    unfold handleStreamEvent, type_is. rewrite Hty, Hc.
    destruct content as [|c r]; [congruence|]. cbn.
    match goal with
    | |- context [if ?b then setConversationId _ _ else _] => destruct b
    end; reflexivity.
Qed.

Lemma find_all_false (A : Type) (f : A -> bool) (l : list A) :
  (forall x, In x l -> f x = false) -> find f l = None.
Proof.
  induction l as [|x l IH]; intros H; [reflexivity|].
  simpl. rewrite (H x (or_introl eq_refl)). apply IH.
  intros y Hy. apply H. now right.
Qed.

(** Indexing a list of options by a number outside it gives [undefined]. *)
Lemma index_out_of_range (options : list JSON) (z : Z) :
  (z < 0 \/ Z.of_nat (List.length options) <= z)%Z ->
  Js.index options (JNum z) = None.
Proof.
  intros Hz. unfold Js.index. cbn [Js.toString].
  rewrite find_all_false; [reflexivity|].
  intros j Hj. apply in_seq in Hj.
  destruct (JsString.eqb (ofZ (Z.of_nat j)) (ofZ z)) eqn:E; [|reflexivity].
  apply eqb_eq, ofZ_inj in E. lia.
Qed.

Section AnswerProperties.

Variable JSON_parse : jsstring -> option StreamEvent.
Variable fetch : Request -> FetchResult.

(** X7. An answer is not checked against the options.  While a destination
    selection is pending, an integer of magnitude below 2^53 that is below
    zero or beyond the captured options (or any such integer when no options
    were captured) is sent all the same, as the [value] of one resume
    request, and is echoed as [Option <index>], the index in decimal. *)
Theorem X7_answer_is_not_range_checked (s : State) (cid : jsstring)
    (currentInterrupt : InterruptData) (z : Z) :
  (Z.abs z < 2 ^ 53)%Z ->
  or_undefined (conversationId s) = Some cid ->
  interruptData s = Some currentInterrupt ->
  int_type currentInterrupt = Some (js "destination_selection") ->
  (int_options currentInterrupt = None
   \/ exists options,
        int_options currentInterrupt = Some options
        /\ (z < 0 \/ Z.of_nat (List.length options) <= z)%Z) ->
  h_requests (handleInterruptResponse JSON_parse fetch (JNum z) s) =
    [PostChatResume cid (JNum z)]
  /\ responseText currentInterrupt (JNum z) = JStr (js "Option " ++ ofZ z)
  /\ exists later,
       messages (h_state (handleInterruptResponse JSON_parse fetch (JNum z) s))
       = messages s ++ user_entry (JStr (js "Option " ++ ofZ z)) :: later.
Proof.
  intros _ Hcid Hint Hty Hopts.
  assert (Htext : responseText currentInterrupt (JNum z) =
                  JStr (js "Option " ++ ofZ z)).
  { unfold responseText. rewrite Hty, eqb_refl.
    destruct Hopts as [->|[options [-> Hz]]]; [reflexivity|].
    now rewrite index_out_of_range. }
  split; [|split; [exact Htext|]].
  - unfold handleInterruptResponse. rewrite Hcid, Hint.
    destruct (resumeChat JSON_parse fetch cid (JNum z)) as [r g] eqn:Eg.
    unfold resumeChat in Eg. now injection Eg as <- _.
  - unfold handleInterruptResponse. rewrite Hcid, Hint.
    destruct (resumeChat JSON_parse fetch cid (JNum z)) as [r g].
    cbn [h_state].
    destruct (try_stream_appends s g
                (handleInterruptResponse_prologue currentInterrupt (JNum z) s))
      as [later Hlater].
    exists later. rewrite Hlater. cbn. now rewrite Htext, <- app_assoc.
Qed.

End AnswerProperties.

(* ================================================================== *)
(** * [trim] and the text that is submitted *)

Lemma trimStart_spec (s : jsstring) :
  exists ws, s = ws ++ trimStart s
             /\ forallb isWhiteSpace ws = true
             /\ match trimStart s with
                | [] => True
                | c :: _ => isWhiteSpace c = false
                end.
Proof.
  induction s as [|c s [ws [E [Hws Hhd]]]].
  - exists []. now repeat split.
  - cbn [trimStart]. destruct (isWhiteSpace c) eqn:Ec.
    + exists (c :: ws). cbn. rewrite Ec. split; [now rewrite <- E|].
      now split.
    + exists []. now repeat split.
Qed.

Lemma trimStart_blank (s : jsstring) :
  trimStart s = [] <-> forallb isWhiteSpace s = true.
Proof.
  induction s as [|c s IH]; cbn; [tauto|].
  destruct (isWhiteSpace c); cbn; [exact IH|]. split; discriminate.
Qed.

Lemma forallb_rev (A : Type) (f : A -> bool) (l : list A) :
  forallb f (rev l) = forallb f l.
Proof.
  induction l as [|x l IH]; [reflexivity|].
  cbn. rewrite forallb_app, IH. cbn. rewrite andb_true_r. apply andb_comm.
Qed.

(** [trim] cuts a run of white space off each end, and nothing else. *)
Lemma trim_spec (s : jsstring) :
  exists left right,
    s = left ++ trim s ++ right
    /\ forallb isWhiteSpace left = true
    /\ forallb isWhiteSpace right = true
    /\ (trim s <> [] ->
        isWhiteSpace (hd 0%N (trim s)) = false
        /\ isWhiteSpace (last (trim s) 0%N) = false).
Proof.
  unfold trim.
  destruct (trimStart_spec s) as [left [El [Hl Hhd]]].
  destruct (trimStart_spec (rev (trimStart s))) as [right' [Er [Hr Hlast]]].
  exists left, (rev right').
  assert (Et : trimStart s =
               rev (trimStart (rev (trimStart s))) ++ rev right').
  { rewrite <- rev_app_distr, <- Er. now rewrite rev_involutive. }
  split; [now rewrite <- Et|].
  split; [exact Hl|]. split; [now rewrite forallb_rev|].
  intros Hne.
  destruct (trimStart (rev (trimStart s))) as [|c u] eqn:Eu; [now cbn in Hne|].
  split.
  - (* the first unit is the first unit of [trimStart s] *)
    rewrite Et in Hhd. cbn [rev] in Hhd |- *.
    destruct (rev u ++ [c]) as [|d w] eqn:Ew.
    + now destruct (rev u).
    + exact Hhd.
  - cbn [rev]. rewrite last_last. exact Hlast.
Qed.

Lemma trim_blank (s : jsstring) :
  trim s = [] <-> forallb isWhiteSpace s = true.
Proof.
  unfold trim. split.
  - intros H.
    assert (H1 : trimStart (rev (trimStart s)) = []).
    { destruct (trimStart (rev (trimStart s))) as [|c u]; [reflexivity|].
      cbn in H. now destruct (rev u). }
    apply trimStart_blank in H1. rewrite forallb_rev in H1.
    destruct (trimStart_spec s) as [ws [E [Hws _]]].
    rewrite E, forallb_app, Hws. exact H1.
  - intros H. apply trimStart_blank in H. now rewrite H.
Qed.

Lemma last_identifier_none (l : list GenItem) (current : option jsstring) :
  existsb carries_id (yielded l) = false ->
  last_identifier l current = current.
Proof.
  revert current. induction l as [|[event|payload] l IH]; intros current H;
    simpl in *; [reflexivity| |now apply IH].
  apply orb_false_iff in H as [He Hl]. unfold carries_id in He.
  now rewrite He, IH.
Qed.

Lemma try_stream_events (render : State) (g1 g2 : Generated) (s : State) :
  yielded (items g1) = yielded (items g2) ->
  throws g1 = throws g2 ->
  try_stream render g1 s = try_stream render g2 s.
Proof.
  unfold try_stream, throws. intros Hev Hth.
  rewrite (for_await_yielded render (items g1)),
          (for_await_yielded render (items g2)), Hev.
  destruct (completion g1), (completion g2); try discriminate; reflexivity.
Qed.

Lemma try_stream_conversationId (render : State) (g : Generated) (s : State) :
  conversationId (try_stream render g s) =
  conversationId (for_await render (items g) s).
Proof. unfold try_stream. now destruct (completion g). Qed.

(** No event touches the text box of the main form. *)
Lemma for_await_input (render : State) (l : list GenItem) :
  forall s, input (for_await render l s) = input s.
Proof.
  induction l as [|[event|payload] l IH]; intros s; simpl;
    [reflexivity| |apply IH].
  rewrite IH. split_event_cases; reflexivity.
Qed.

Lemma try_stream_input (render : State) (g : Generated) (s : State) :
  input (try_stream render g s) = input (for_await render (items g) s).
Proof. unfold try_stream. now destruct (completion g). Qed.

Lemma try_stream_isLoading (render : State) (g : Generated) (s : State) :
  isLoading (try_stream render g s) = false.
Proof. reflexivity. Qed.

Section HandlerProperties.

Variable JSON_parse : jsstring -> option StreamEvent.

(** X8. What is submitted is the trimmed input.  An input of white space
    only opens no stream and changes nothing.  The message of any request
    that [handleSubmit] sends is the input without the white space at its two
    ends: it is not empty and neither starts nor ends with white space. *)
Theorem X8_submitted_text_is_trimmed (fetch : Request -> FetchResult)
    (s : State) :
  (forallb isWhiteSpace (input s) = true ->
   handleSubmit JSON_parse fetch s = mkHandled s [] Returned)
  /\ forall message cid,
       In (PostChatStream message cid)
          (h_requests (handleSubmit JSON_parse fetch s)) ->
       message <> []
       /\ isWhiteSpace (hd 0%N message) = false
       /\ isWhiteSpace (last message 0%N) = false
       /\ exists left right,
            input s = left ++ message ++ right
            /\ forallb isWhiteSpace left = true
            /\ forallb isWhiteSpace right = true.
Proof.
  split.
  - intros Hblank. apply trim_blank in Hblank.
    unfold handleSubmit. now rewrite Hblank.
  - intros message cid. unfold handleSubmit.
    destruct (trim (input s)) as [|c r] eqn:Et; [intros []|].
    cbn [JsString.truthy negb orb].
    destruct (isLoading s); [intros []|].
    destruct (streamChat JSON_parse fetch (c :: r)
                (or_undefined (conversationId s))) as [request g] eqn:Eg.
    unfold streamChat in Eg. injection Eg as <- _.
    intros [E|[]]. injection E as <- _.
    destruct (trim_spec (input s)) as [left [right [Ein [Hl [Hr Hends]]]]].
    rewrite Et in Ein, Hends.
    split; [discriminate|].
    destruct Hends as [Hfirst Hlast]; [discriminate|].
    split; [exact Hfirst|]. split; [exact Hlast|].
    now exists left, right.
Qed.

(** X9. The state after a call depends on the stream only through the
    events it yields and through whether it ends by throwing.  Two transports
    that make the generator yield the same events, and both or neither throw,
    leave the same state: lines that are no data frames, frames that do not
    parse, the cuts between chunks and the reason of a failure are all
    invisible. *)
Theorem X9_state_depends_on_events_only (fetch1 fetch2 : Request -> FetchResult)
    (value : JSON) (s : State) :
  (let g1 := snd (streamChat JSON_parse fetch1 (trim (input s))
                    (or_undefined (conversationId s))) in
   let g2 := snd (streamChat JSON_parse fetch2 (trim (input s))
                    (or_undefined (conversationId s))) in
   yielded (items g1) = yielded (items g2) -> throws g1 = throws g2 ->
   handleSubmit JSON_parse fetch1 s = handleSubmit JSON_parse fetch2 s)
  /\ (forall cid,
      or_undefined (conversationId s) = Some cid ->
      let g1 := snd (resumeChat JSON_parse fetch1 cid value) in
      let g2 := snd (resumeChat JSON_parse fetch2 cid value) in
      yielded (items g1) = yielded (items g2) -> throws g1 = throws g2 ->
      handleInterruptResponse JSON_parse fetch1 value s =
      handleInterruptResponse JSON_parse fetch2 value s).
Proof.
  split.
  - intros g1 g2 Hev Hth. subst g1 g2. unfold handleSubmit.
    destruct (negb (JsString.truthy (trim (input s))) || isLoading s);
      [reflexivity|].
    destruct (streamChat JSON_parse fetch1 (trim (input s))
                (or_undefined (conversationId s))) as [r1 g1] eqn:E1.
    destruct (streamChat JSON_parse fetch2 (trim (input s))
                (or_undefined (conversationId s))) as [r2 g2] eqn:E2.
    cbn [snd] in Hev, Hth.
    rewrite (try_stream_events _ _ _ _ Hev Hth).
    unfold streamChat in E1, E2. injection E1 as <- _. injection E2 as <- _.
    reflexivity.
  - intros cid Hcid g1 g2 Hev Hth. subst g1 g2.
    unfold handleInterruptResponse. rewrite Hcid.
    destruct (interruptData s) as [ci|]; [|reflexivity].
    destruct (resumeChat JSON_parse fetch1 cid value) as [r1 g1] eqn:E1.
    destruct (resumeChat JSON_parse fetch2 cid value) as [r2 g2] eqn:E2.
    cbn [snd] in Hev, Hth.
    rewrite (try_stream_events _ _ _ _ Hev Hth).
    unfold resumeChat in E1, E2. injection E1 as <- _. injection E2 as <- _.
    reflexivity.
Qed.

Variable fetch : Request -> FetchResult.

(** X10. An interrupt without an identifier cannot be answered.  When a
    submission made while no identifier is bound receives an interrupt and no
    event that carries an identifier, the state it leaves accepts nothing:
    every answer, from a button or from the question form, returns without
    effect, and the main form is disabled -- while the option buttons are
    enabled. *)
Theorem X10_interrupt_without_identifier_is_stuck (s : State) :
  JsString.truthy (trim (input s)) = true -> isLoading s = false ->
  bound s = false ->
  existsb carries_id (submit_events JSON_parse fetch s) = false ->
  existsb is_interrupt (submit_events JSON_parse fetch s) = true ->
  let s' := h_state (handleSubmit JSON_parse fetch s) in
  stream_state s' = AwaitingHumanInput
  /\ (forall value,
        handleInterruptResponse JSON_parse fetch value s' =
        mkHandled s' [] Returned)
  /\ question_onSubmit JSON_parse fetch s' = mkHandled s' [] Returned
  /\ handleSubmit JSON_parse fetch s' = mkHandled s' [] Returned
  /\ input_disabled s' = true
  /\ submit_disabled s' = true
  /\ option_disabled s' = false.
Proof.
  intros Hin Hload Hb Hids Hint s'. unfold submit_events in Hids, Hint.
  assert (Hs' : s' = try_stream s
                  (snd (streamChat JSON_parse fetch (trim (input s))
                          (or_undefined (conversationId s))))
                  (handleSubmit_prologue (trim (input s)) s))
    by (subst s'; now apply handleSubmit_runs).
  assert (Hstate : stream_state s' = AwaitingHumanInput).
  { rewrite Hs', try_stream_state by reflexivity. now rewrite Hint. }
  assert (Hid : or_undefined (conversationId s') = None).
  { rewrite Hs', try_stream_conversationId,
      (for_await_last_identifier _ _ Hb), last_identifier_none by exact Hids.
    cbn. unfold bound in Hb. now destruct (conversationId s) as [[|? ?]|]. }
  assert (Hload' : isLoading s' = false) by now rewrite Hs'.
  assert (Hpend : exists ci, interruptData s' = Some ci).
  { unfold stream_state in Hstate. rewrite Hload' in Hstate.
    destruct (interruptData s') as [ci|]; [now exists ci | discriminate]. }
  destruct Hpend as [ci Hci].
  assert (Hans : forall value,
             handleInterruptResponse JSON_parse fetch value s' =
             mkHandled s' [] Returned).
  { intros value. unfold handleInterruptResponse. now rewrite Hid. }
  split; [exact Hstate|]. split; [exact Hans|]. split.
  { unfold question_onSubmit. rewrite Hans.
    destruct (JsString.truthy (trim (userResponse s'))); reflexivity. }
  split.
  { assert (Hinput : input s' = []).
    { rewrite Hs', try_stream_input, for_await_input. reflexivity. }
    unfold handleSubmit. now rewrite Hinput. }
  unfold input_disabled, submit_disabled, option_disabled.
  rewrite Hload', Hci. repeat split. apply orb_true_r.
Qed.

End HandlerProperties.

(* ================================================================== *)
(** * The answer box and the season *)

Lemma for_await_userResponse (render : State) (l : list GenItem) :
  forall s, userResponse (for_await render l s) = userResponse s.
Proof.
  induction l as [|[event|payload] l IH]; intros s; simpl;
    [reflexivity| |apply IH].
  rewrite IH. split_event_cases; reflexivity.
Qed.

Lemma try_stream_userResponse (render : State) (g : Generated) (s : State) :
  userResponse (try_stream render g s) = userResponse s.
Proof.
  unfold try_stream.
  destruct (completion g); cbn; apply for_await_userResponse.
Qed.

(** The echo of an answer to anything but a destination selection is the
    answer turned into a string. *)
Lemma responseText_plain (currentInterrupt : InterruptData) (value : JSON) :
  int_type currentInterrupt <> Some (js "destination_selection") ->
  responseText currentInterrupt value = JStr (Js.toString value).
Proof.
  intros Hty. unfold responseText.
  destruct (int_type currentInterrupt) as [t|]; [|reflexivity].
  destruct (JsString.eqb t (js "destination_selection")) eqn:E;
    [|reflexivity].
  apply eqb_eq in E. congruence.
Qed.

(** What one event does to the selected season. *)
Lemma handleStreamEvent_season (render : State) (event : StreamEvent) (s : State) :
  selectedSeason (handleStreamEvent render event s) =
  match names_season event with
  | Some season => Some season
  | None => selectedSeason s
  end.
Proof.
  unfold names_season.
  by_tag event;
    repeat match goal with
      | |- context [Js.truthy_opt ?x] =>
          let E := fresh "E" in
          destruct (Js.truthy_opt x) eqn:E;
          [destruct x; [|discriminate E]|]
      end;
    split_ifs; reflexivity.
Qed.

Lemma for_await_season (render : State) (l : list GenItem) :
  forall s,
  selectedSeason (for_await render l s) =
  last_season (yielded l) (selectedSeason s).
Proof.
  induction l as [|[event|payload] l IH]; intros s; simpl;
    [reflexivity| |apply IH].
  now rewrite IH, handleStreamEvent_season.
Qed.

Lemma try_stream_season (render : State) (g : Generated) (s : State) :
  selectedSeason (try_stream render g s) =
  last_season (yielded (items g)) (selectedSeason s).
Proof.
  unfold try_stream.
  destruct (completion g); cbn; apply for_await_season.
Qed.

Section FormProperties.

Variable JSON_parse : jsstring -> option StreamEvent.
Variable fetch : Request -> FetchResult.

(** X11. The question form sends the answer as typed.  An answer of white
    space only is not sent.  Any other answer goes out untrimmed, as the
    [value] of one resume request; unless a destination selection is pending
    it is echoed in the log untrimmed too, and the answer box is empty
    afterwards. *)
Theorem X11_question_answer_goes_as_typed (s : State) :
  (forallb isWhiteSpace (userResponse s) = true ->
   question_onSubmit JSON_parse fetch s = mkHandled s [] Returned)
  /\ (forall cid currentInterrupt,
      or_undefined (conversationId s) = Some cid ->
      interruptData s = Some currentInterrupt ->
      forallb isWhiteSpace (userResponse s) = false ->
      h_requests (question_onSubmit JSON_parse fetch s) =
        [PostChatResume cid (JStr (userResponse s))]
      /\ userResponse (h_state (question_onSubmit JSON_parse fetch s)) = []
      /\ (int_type currentInterrupt <> Some (js "destination_selection") ->
          exists later,
            messages (h_state (question_onSubmit JSON_parse fetch s)) =
            messages s ++ user_entry (JStr (userResponse s)) :: later)).
Proof.
  split.
  - intros Hblank. apply trim_blank in Hblank.
    unfold question_onSubmit. now rewrite Hblank.
  - intros cid ci Hcid Hint Hblank.
    assert (Hgo : JsString.truthy (trim (userResponse s)) = true).
    { destruct (trim (userResponse s)) eqn:Et; [|reflexivity].
      apply trim_blank in Et. congruence. }
    unfold question_onSubmit. rewrite Hgo.
    rewrite (handleInterruptResponse_runs JSON_parse fetch _ _ Hcid Hint).
    split; [|split].
    + unfold handleInterruptResponse. rewrite Hcid, Hint.
      destruct (resumeChat JSON_parse fetch cid (JStr (userResponse s)))
        as [r g] eqn:Eg.
      unfold resumeChat in Eg. now injection Eg as <- _.
    + now rewrite try_stream_userResponse.
    + intros Hty.
      destruct (try_stream_appends s
                  (snd (resumeChat JSON_parse fetch cid (JStr (userResponse s))))
                  (handleInterruptResponse_prologue ci
                     (JStr (userResponse s)) s)) as [later Hlater].
      exists later. rewrite Hlater. cbn.
      rewrite (responseText_plain _ _ Hty). cbn.
      now rewrite <- app_assoc.
Qed.

(** X12. The selected season follows the [step] events only.  After a
    submission it is the season named in the [data] of the last [step] event
    that names a truthy one, and none if no such event came; after an answer
    it is that season, or the one selected before.  Events of every other
    tag, [season] included, leave it alone. *)
Theorem X12_season_follows_step_events (value : JSON) (s : State) :
  (JsString.truthy (trim (input s)) = true -> isLoading s = false ->
   selectedSeason (h_state (handleSubmit JSON_parse fetch s)) =
   last_season (submit_events JSON_parse fetch s) None)
  /\ (forall cid currentInterrupt,
      or_undefined (conversationId s) = Some cid ->
      interruptData s = Some currentInterrupt ->
      selectedSeason (h_state (handleInterruptResponse JSON_parse fetch value s))
      = last_season (answer_events JSON_parse fetch cid value)
                    (selectedSeason s))
  /\ (forall render event s0,
      type_is event "step" = false ->
      selectedSeason (handleStreamEvent render event s0) = selectedSeason s0).
Proof.
  unfold submit_events, answer_events. split; [|split].
  - intros Hin Hload.
    rewrite (handleSubmit_runs JSON_parse fetch _ Hin Hload).
    now rewrite try_stream_season.
  - intros cid ci Hcid Hint.
    rewrite (handleInterruptResponse_runs JSON_parse fetch _ _ Hcid Hint).
    now rewrite try_stream_season.
  - intros render event s0 Hty.
    rewrite handleStreamEvent_season. unfold names_season. now rewrite Hty.
Qed.

End FormProperties.

(* ================================================================== *)
(** * Line feeds through the decoder *)

Module LineFeeds.
Import TextDecoder.

Lemma land_ones_pos (b : N) (k : N) (q : N) :
  (q * 2 ^ k < b < (q + 1) * 2 ^ k)%N -> (1 <= N.land b (N.ones k))%N.
Proof.
  intros [Hlo Hhi]. rewrite N.land_ones.
  assert (Hk : (2 ^ k <> 0)%N) by (apply N.pow_nonzero; discriminate).
  pose proof (N.div_mod b (2 ^ k) Hk) as Hdm.
  destruct (b mod 2 ^ k)%N as [|p]; [|lia].
  rewrite N.add_0_r in Hdm. exfalso.
  set (m := (2 ^ k)%N) in *. clearbody m.
  set (d := (b / m)%N) in *. clearbody d.
  rewrite Hdm, (N.mul_comm m d) in Hlo, Hhi.
  apply N.mul_lt_mono_pos_r in Hlo; [|lia].
  apply N.mul_lt_mono_pos_r in Hhi; [|lia]. lia.
Qed.

Lemma lor_shiftl_not_LF (c y : N) :
  (1 <= c)%N -> N.lor (N.shiftl c 6) y <> 10%N.
Proof.
  intros Hc H.
  assert (E : N.shiftr (N.lor (N.shiftl c 6) y) 6 = N.shiftr 10 6)
    by now rewrite H.
  rewrite N.shiftr_lor, N.shiftr_shiftl_l, N.sub_diag, N.shiftl_0_r in E
    by reflexivity.
  change (N.shiftr 10 6) with 0%N in E.
  apply N.lor_eq_0_iff in E as [E _]. lia.
Qed.

Lemma lor_shiftl_pos (c y : N) :
  (1 <= c)%N \/ (1 <= y)%N -> (1 <= N.lor (N.shiftl c 6) y)%N.
Proof.
  intros H.
  destruct (N.eq_dec (N.lor (N.shiftl c 6) y) 0) as [E|E]; [|lia].
  apply N.lor_eq_0_iff in E as [E1 E2].
  apply N.shiftl_eq_0_iff in E1. lia.
Qed.

Lemma between_true (lo x hi : N) :
  between lo x hi = true <-> (lo <= x <= hi)%N.
Proof.
  unfold between. rewrite andb_true_iff, !N.leb_le. tauto.
Qed.

Lemma between_false (lo x hi : N) :
  between lo x hi = false <-> (x < lo \/ hi < x)%N.
Proof.
  unfold between. rewrite andb_false_iff, !N.leb_gt. tauto.
Qed.

Lemma count_LF_one (c : N) :
  count_LF [c] = if (c =? 10)%N then 1%nat else 0%nat.
Proof.
  unfold count_LF. cbn [filter]. unfold LF. rewrite (N.eqb_sym 10 c).
  now destruct (c =? 10)%N.
Qed.

Lemma count_LF_app (a b : jsstring) :
  count_LF (a ++ b) = (count_LF a + count_LF b)%nat.
Proof. unfold count_LF. now rewrite filter_app, length_app. Qed.

(** The handler on a byte that starts a character. *)
Lemma handler_start (d : Utf8) (b : N) :
  bytes_needed d = 0%N -> bytes_seen d = 0%N ->
  (0x80 <= lower_boundary d)%N -> (upper_boundary d <= 0xBF)%N ->
  let '(d', r, restored) := handler d b in
  restored = false
  /\ utf8_invariant d'
  /\ count_LF (emitted r) = if (b =? 10)%N then 1%nat else 0%nat.
Proof.
  intros Hn Hs Hlo Hhi. unfold handler. rewrite Hn. cbn [N.eqb].
  destruct (between 0 b 127) eqn:B1.
  { split; [reflexivity|]. split.
    - unfold utf8_invariant. now repeat split; try left.
    - cbn [emitted]. apply count_LF_one. }
  apply between_false in B1.
  assert (Hb : (b =? 10)%N = false) by (apply N.eqb_neq; lia).
  rewrite Hb.
  destruct (between 194 b 223) eqn:B2.
  { apply between_true in B2. split; [reflexivity|]. split; [|reflexivity].
    unfold utf8_invariant. cbn. repeat split; try assumption.
    right. split; [discriminate|]. left.
    change 31%N with (N.ones 5). apply (@land_ones_pos b 5 6). cbn. lia. }
  destruct (between 224 b 239) eqn:B3.
  { apply between_true in B3. split; [reflexivity|]. split; [|reflexivity].
    unfold utf8_invariant. cbn.
    split; [destruct (b =? 224)%N; lia|].
    split; [destruct (b =? 237)%N; lia|].
    right. split; [discriminate|].
    destruct (N.eqb_spec b 224) as [->|Hne].
    - right. rewrite Hs. cbn. lia.
    - left. change 15%N with (N.ones 4).
      apply (@land_ones_pos b 4 14). cbn. lia. }
  destruct (between 240 b 244) eqn:B4.
  { apply between_true in B4. split; [reflexivity|]. split; [|reflexivity].
    unfold utf8_invariant. cbn.
    split; [destruct (b =? 240)%N; lia|].
    split; [destruct (b =? 244)%N; lia|].
    right. split; [discriminate|].
    destruct (N.eqb_spec b 240) as [->|Hne].
    - right. rewrite Hs. cbn. lia.
    - left. change 7%N with (N.ones 3).
      apply (@land_ones_pos b 3 30). cbn. lia. }
  split; [reflexivity|]. split; [|reflexivity].
  unfold utf8_invariant. now repeat split; try left.
Qed.

Lemma utf8_init_invariant : utf8_invariant utf8_init.
Proof. unfold utf8_invariant. cbn. repeat split; first [lia | now left]. Qed.

(** One byte: the invariant is kept, and a line feed comes out exactly when
    a line feed byte goes in. *)
Lemma process_byte_LF (d : Utf8) (b : N) :
  utf8_invariant d ->
  let (d', out) := process_byte d b in
  utf8_invariant d'
  /\ count_LF out = if (b =? 10)%N then 1%nat else 0%nat.
Proof.
  intros [Hlo [Hhi Hst]]. unfold process_byte.
  destruct Hst as [[Hn Hs]|[Hn Hc]].
  - pose proof (handler_start d b Hn Hs Hlo Hhi) as H.
    destruct (handler d b) as [[d' r] restored].
    destruct H as [-> [Hinv Hcount]]. now split.
  - unfold handler at 1. apply N.eqb_neq in Hn. rewrite Hn.
    destruct (between (lower_boundary d) b (upper_boundary d)) eqn:B.
    + apply between_true in B. cbn [negb].
      assert (Hb : (b =? 10)%N = false) by (apply N.eqb_neq; lia).
      rewrite Hb.
      destruct (bytes_seen d + 1 =? bytes_needed d)%N eqn:Edone.
      * apply N.eqb_eq in Edone. split; [apply utf8_init_invariant|].
        cbn [emitted]. rewrite count_LF_one.
        destruct Hc as [Hc|[_ Hc]]; [|lia].
        destruct (N.eqb_spec (N.lor (N.shiftl (code_point d) 6) (N.land b 63)) 10)
          as [E|_]; [|reflexivity].
        now apply lor_shiftl_not_LF in E.
      * split; [|reflexivity].
        unfold utf8_invariant. cbn. repeat split; try lia.
        right. apply N.eqb_neq in Hn. split; [exact Hn|]. left.
        apply lor_shiftl_pos.
        destruct Hc as [Hc|[Hc _]]; [now left|right].
        change 63%N with (N.ones 6). apply (@land_ones_pos b 6 2). cbn. lia.
    + cbn [negb].
      pose proof (@handler_start utf8_init b eq_refl eq_refl) as H.
      destruct (handler utf8_init b) as [[d2 r2] restored2].
      destruct H as [_ [Hinv Hcount]]; [cbn; lia | cbn; lia |].
      split; [exact Hinv|].
      rewrite count_LF_app. cbn [emitted]. rewrite count_LF_one. cbn.
      exact Hcount.
Qed.

Lemma run_LF (bytes : list byte) :
  forall d, utf8_invariant d ->
  utf8_invariant (fst (run d bytes))
  /\ count_LF (snd (run d bytes)) = count_LF_bytes bytes.
Proof.
  induction bytes as [|x bytes IH]; intros d Hd; [now split|].
  cbn [run].
  pose proof (@process_byte_LF d (Byte.to_N x) Hd) as H1.
  destruct (process_byte d (Byte.to_N x)) as [d1 out1].
  destruct H1 as [Hd1 Hc1].
  specialize (IH d1 Hd1). destruct (run d1 bytes) as [d2 out2].
  cbn [fst snd] in *. destruct IH as [Hd2 Hc2].
  split; [exact Hd2|].
  rewrite count_LF_app, Hc1, Hc2.
  unfold count_LF_bytes, is_LF_byte. cbn [filter].
  now destruct (Byte.to_N x =? 10)%N.
Qed.

Lemma serialize_LF (seen : bool) (out : list N) :
  count_LF (snd (serialize seen out)) = count_LF out.
Proof.
  destruct seen; [reflexivity|].
  destruct out as [|cp out]; [reflexivity|]. unfold serialize.
  destruct (N.eqb_spec cp 65279) as [->|_]; reflexivity.
Qed.

Lemma utf16_LF (out : list N) :
  count_LF (flat_map utf16 out) = count_LF out.
Proof.
  induction out as [|cp out IH]; [reflexivity|].
  cbn [flat_map]. rewrite count_LF_app, IH.
  change (cp :: out) with ([cp] ++ out). rewrite (count_LF_app [cp]).
  f_equal. unfold utf16.
  destruct (cp <? 65536)%N eqn:Ecp; [reflexivity|].
  apply N.ltb_ge in Ecp.
  match goal with
  | |- count_LF [?a; ?b] = _ =>
      change [a; b] with ([a] ++ [b]); rewrite count_LF_app, !count_LF_one;
      destruct (N.eqb_spec a 10) as [Ea|_]; [lia|];
      destruct (N.eqb_spec b 10) as [Eb|_]; [lia|]
  end.
  destruct (N.eqb_spec cp 10) as [->|_]; [lia | reflexivity].
Qed.

(** The decoder neither makes nor loses a line feed. *)
Lemma decode_LF (td : t) (bytes : list byte) :
  utf8_invariant (decoder td) ->
  utf8_invariant (decoder (fst (decode td bytes)))
  /\ count_LF (snd (decode td bytes)) = count_LF_bytes bytes.
Proof.
  intros Hd. unfold decode.
  destruct (@run_LF bytes (decoder td) Hd) as [Hinv Hcount].
  destruct (run (decoder td) bytes) as [d out]. cbn [fst snd] in *.
  pose proof (serialize_LF (bom_seen td) out) as Hser.
  destruct (serialize (bom_seen td) out) as [seen out']. cbn [fst snd] in *.
  split; [exact Hinv|]. now rewrite utf16_LF, Hser.
Qed.

End LineFeeds.

Lemma split_length (s : jsstring) :
  List.length (split LF s) = S (count_LF s).
Proof.
  unfold count_LF. induction s as [|c s IH]; [reflexivity|].
  cbn [split filter]. rewrite (N.eqb_sym c LF).
  destruct (N.eqb LF c).
  - cbn [List.length]. now rewrite IH.
  - pose proof (split_not_nil LF s) as Hne.
    destruct (split LF s) as [|l ls]; [congruence|]. exact IH.
Qed.

Lemma complete_lines_length (s : jsstring) :
  List.length (complete_lines s) = count_LF s.
Proof.
  unfold complete_lines.
  pose proof (split_length s) as H.
  pose proof (split_not_nil LF s) as Hne.
  destruct (exists_last Hne) as [l [x E]]. rewrite E in *.
  rewrite removelast_last. rewrite length_app in H. cbn in H. lia.
Qed.

Lemma frames_length (lines : list jsstring) :
  (List.length (frames lines) <= List.length lines)%nat.
Proof.
  unfold frames. rewrite length_map.
  induction lines as [|l lines IH]; [reflexivity|].
  cbn [filter]. destruct (is_frame l); cbn [List.length]; lia.
Qed.

(** A run of bytes below 0x80 decodes to itself. *)
Lemma run_ascii (bytes : list byte) (d : TextDecoder.Utf8) :
  TextDecoder.bytes_needed d = 0%N ->
  forallb (fun b => (Byte.to_N b <? 0x80)%N) bytes = true ->
  TextDecoder.run d bytes = (d, map Byte.to_N bytes).
Proof.
  intros Hn. induction bytes as [|x bytes IH]; intros Hall; [reflexivity|].
  cbn [forallb] in Hall. apply andb_true_iff in Hall as [Hx Hall].
  apply N.ltb_lt in Hx.
  cbn [TextDecoder.run map].
  assert (E : TextDecoder.process_byte d (Byte.to_N x) = (d, [Byte.to_N x])).
  { unfold TextDecoder.process_byte, TextDecoder.handler. rewrite Hn.
    cbn [N.eqb].
    assert (B : TextDecoder.between 0 (Byte.to_N x) 127 = true)
      by (apply LineFeeds.between_true; lia).
    now rewrite B. }
  rewrite E, (IH Hall). reflexivity.
Qed.

Lemma decoded_ascii (bytes : list byte) :
  forallb (fun b => (Byte.to_N b <? 0x80)%N) bytes = true ->
  decoded bytes = map Byte.to_N bytes.
Proof.
  intros Hall. unfold decoded, TextDecoder.decode.
  cbn [TextDecoder.decoder TextDecoder.bom_seen TextDecoder.create].
  rewrite (run_ascii bytes TextDecoder.utf8_init eq_refl Hall).
  assert (Hsmall : forall l : list byte,
            forallb (fun b => (Byte.to_N b <? 0x80)%N) l = true ->
            flat_map TextDecoder.utf16 (map Byte.to_N l) = map Byte.to_N l).
  { induction l as [|x l IH]; intros H; [reflexivity|].
    cbn [forallb] in H. apply andb_true_iff in H as [Hx H].
    apply N.ltb_lt in Hx. cbn [map flat_map]. rewrite (IH H).
    unfold TextDecoder.utf16.
    assert (E : (Byte.to_N x <? 65536)%N = true) by (apply N.ltb_lt; lia).
    now rewrite E. }
  destruct bytes as [|x bytes]; [reflexivity|].
  cbn [map TextDecoder.serialize].
  cbn [forallb] in Hall. pose proof Hall as Hall'.
  apply andb_true_iff in Hall as [Hx _]. apply N.ltb_lt in Hx.
  assert (E : (Byte.to_N x =? 65279)%N = false) by (apply N.eqb_neq; lia).
  rewrite E. cbn [snd]. exact (Hsmall (x :: bytes) Hall').
Qed.

Section DecoderProperties.

Variable JSON_parse : jsstring -> option StreamEvent.

(** X13. Line feeds pass the decoder untouched.  Whatever the bytes are --
    valid UTF-8 or not, with a byte order mark or not, cut anywhere -- the
    decoded text holds exactly as many line feeds as the stream holds bytes
    0x0A, so the read loop examines exactly one line per such byte and shows
    at most that many items. *)
Theorem X13_one_line_per_line_feed_byte (reads : list (list byte)) :
  count_LF (decoded (List.concat reads)) = count_LF_bytes (List.concat reads)
  /\ List.length (complete_lines (decoded (List.concat reads))) =
     count_LF_bytes (List.concat reads)
  /\ (List.length (streamChat_loop JSON_parse TextDecoder.create [] reads)
      <= count_LF_bytes (List.concat reads))%nat
  /\ (List.length (resumeChat_loop JSON_parse TextDecoder.create [] reads)
      <= count_LF_bytes (List.concat reads))%nat.
Proof.
  assert (H : count_LF (decoded (List.concat reads)) =
              count_LF_bytes (List.concat reads)).
  { unfold decoded.
    apply (LineFeeds.decode_LF TextDecoder.create (List.concat reads)).
    apply LineFeeds.utf8_init_invariant. }
  split; [exact H|].
  split; [now rewrite complete_lines_length|].
  split.
  - rewrite streamChat_loop_frames, length_map, <- H, <- complete_lines_length.
    apply frames_length.
  - rewrite resumeChat_loop_frames, length_map, <- H, <- complete_lines_length.
    apply frames_length.
Qed.

(** X14. An ASCII wire is read byte for byte.  When every byte of the
    stream is below 0x80, the lines are the byte lines: each generator shows
    one item per newline-terminated byte line that starts with [data: ], and
    what goes to [JSON.parse] is the rest of that line, byte for byte. *)
Theorem X14_ascii_is_read_byte_for_byte (reads : list (list byte)) :
  forallb (fun b => (Byte.to_N b <? 0x80)%N) (List.concat reads) = true ->
  streamChat_loop JSON_parse TextDecoder.create [] reads =
  map (frame_item JSON_parse)
      (frames (complete_lines (map Byte.to_N (List.concat reads))))
  /\ resumeChat_loop JSON_parse TextDecoder.create [] reads =
     map (frame_item JSON_parse)
         (frames (complete_lines (map Byte.to_N (List.concat reads)))).
Proof.
  intros Hascii.
  rewrite streamChat_loop_frames, resumeChat_loop_frames.
  now rewrite (decoded_ascii _ Hascii).
Qed.

End DecoderProperties.

(* ================================================================== *)
(** * Interrupts, and what the log holds *)

Lemma or_else_not_nil (o : option jsstring) (fallback : jsstring) :
  fallback <> [] -> or_else o fallback <> [].
Proof. intros H. destruct o as [[|c r]|]; cbn; congruence. Qed.

(** X15. Answers are resolved against the interrupt that is pending.  An
    interrupt event stores its options as they came, both in the interrupt
    that is held and in the entry it logs (from which the buttons are drawn),
    so a button's index means the same option in both; for a destination
    selection, the echo of index [i] is the name of the event's [i]-th
    option. *)
Theorem X15_answers_resolve_against_the_interrupt (render : State)
    (event : StreamEvent) (s : State) (options : list JSON) :
  type_is event "interrupt" = true ->
  ev_options event = Some options ->
  let s1 := handleStreamEvent render event s in
  exists currentInterrupt entry,
    interruptData s1 = Some currentInterrupt
    /\ int_options currentInterrupt = Some options
    /\ int_type currentInterrupt = ev_interrupt_type event
    /\ messages s1 = messages s ++ [entry]
    /\ msg_type entry = MessageType.interrupt
    /\ msg_data entry =
       Some (DataInterrupt (ev_interrupt_type event) (Some options)
                           (ev_field event) (ev_budget_allocation event))
    /\ (ev_interrupt_type event = Some (js "destination_selection") ->
        forall i option name,
          nth_error options i = Some option ->
          Js.prop (Some option) (js "name") = Some name ->
          Js.truthy name = true ->
          responseText currentInterrupt (JNum (Z.of_nat i)) = name).
Proof.
  intros Hty Hopts s1. subst s1. apply type_is_eq in Hty.
  unfold handleStreamEvent, type_is. rewrite Hty, Hopts.
  match goal with
  | |- context [if ?b then setConversationId _ _ else _] => destruct b
  end;
  (eexists; eexists; repeat (split; [reflexivity|]);
   intros Hkind i option name Hnth Hname Htruthy;
   unfold responseText; cbn [int_type int_options];
   rewrite Hkind, eqb_refl, index_in_range
     by (apply nth_error_Some; now rewrite Hnth);
   now rewrite Hnth, Hname, Htruthy).
Qed.

Lemma handleStreamEvent_has_text (render : State) (event : StreamEvent)
    (s : State) :
  exists more,
    messages (handleStreamEvent render event s) = messages s ++ more
    /\ Forall has_text more.
Proof.
  split_event_cases; cbn;
    first [ exists []; split; [now rewrite app_nil_r | constructor]
          | eexists; split; [reflexivity|];
            constructor; [|constructor];
            eexists; split; [reflexivity|];
            first [ discriminate
                  | apply or_else_not_nil; discriminate ] ].
Qed.

Lemma for_await_has_text (render : State) (l : list GenItem) :
  forall s, exists more,
    messages (for_await render l s) = messages s ++ more
    /\ Forall has_text more.
Proof.
  induction l as [|[event|payload] l IH]; intros s; simpl.
  - exists []. split; [now rewrite app_nil_r | constructor].
  - destruct (IH (handleStreamEvent render event s)) as [m2 [H2 F2]].
    destruct (handleStreamEvent_has_text render event s) as [m1 [H1 F1]].
    exists (m1 ++ m2). split.
    + now rewrite H2, H1, app_assoc.
    + apply Forall_app. now split.
  - apply IH.
Qed.

Lemma error_entry_has_text : has_text error_entry.
Proof. eexists. split; [reflexivity | discriminate]. Qed.

Section LogProperties.

Variable JSON_parse : jsstring -> option StreamEvent.
Variable fetch : Request -> FetchResult.

(** X16. No empty entry is logged by a submission.  Every entry that a call
    of [handleSubmit] adds -- the echo of the message, the entries of the
    events, the error entry -- holds a non-empty text: an event without
    content gets the stand-in text of its kind, and narration without content
    is not logged. *)
Theorem X16_submission_logs_no_empty_entry (s : State) :
  exists more,
    messages (h_state (handleSubmit JSON_parse fetch s)) = messages s ++ more
    /\ Forall has_text more.
Proof.
  unfold handleSubmit.
  destruct (trim (input s)) as [|c r] eqn:Et.
  { exists []. cbn. split; [now rewrite app_nil_r | constructor]. }
  cbn [JsString.truthy negb orb].
  destruct (isLoading s).
  { exists []. cbn. split; [now rewrite app_nil_r | constructor]. }
  destruct (streamChat JSON_parse fetch (c :: r)
              (or_undefined (conversationId s))) as [request g].
  cbn [h_state]. unfold try_stream.
  destruct (for_await_has_text s (items g)
              (handleSubmit_prologue (c :: r) s)) as [m [H F]].
  assert (Hecho : has_text (user_entry (JStr (c :: r))))
    by (eexists; split; [reflexivity | discriminate]).
  destruct (completion g); cbn; rewrite H; cbn.
  - exists (user_entry (JStr (c :: r)) :: m). split.
    + now rewrite <- app_assoc.
    + now constructor.
  - exists (user_entry (JStr (c :: r)) :: m ++ [error_entry]). split.
    + now rewrite <- !app_assoc.
    + constructor; [exact Hecho|]. apply Forall_app. split; [exact F|].
      constructor; [apply error_entry_has_text | constructor].
Qed.

End LogProperties.

(* ================================================================== *)
(** * Frames are isolated by line feeds *)

Module Isolation.
Import TextDecoder.

Lemma handler_init_rests (b : N) :
  bytes_needed (fst (fst (handler utf8_init b))) = 0%N ->
  fst (fst (handler utf8_init b)) = utf8_init.
Proof.
  unfold handler. cbn [bytes_needed utf8_init N.eqb].
  destruct (between 0 b 127); [reflexivity|].
  destruct (between 194 b 223); [discriminate|].
  destruct (between 224 b 239); [discriminate|].
  destruct (between 240 b 244); [discriminate|reflexivity].
Qed.

(** Between two characters the decoder is in its initial state. *)
Lemma process_byte_rests (d : Utf8) (b : N) :
  (bytes_needed d = 0%N -> d = utf8_init) ->
  bytes_needed (fst (process_byte d b)) = 0%N ->
  fst (process_byte d b) = utf8_init.
Proof.
  intros Hd. unfold process_byte.
  destruct (N.eq_dec (bytes_needed d) 0) as [Hn|Hn].
  - rewrite (Hd Hn). pose proof (handler_init_rests b) as H.
    destruct (handler utf8_init b) as [[d1 r1] restored] eqn:E.
    cbn [fst] in H.
    assert (Hr : restored = false).
    { pose proof (@LineFeeds.handler_start utf8_init b eq_refl eq_refl) as S.
      rewrite E in S. destruct S as [S _]; [cbn; lia | cbn; lia | exact S]. }
    rewrite Hr. exact H.
  - assert (E : handler d b =
                if negb (between (lower_boundary d) b (upper_boundary d))
                then (utf8_init, DecodeError, true)
                else
                  let cp := N.lor (N.shiftl (code_point d) 6) (N.land b 0x3F) in
                  let seen := (bytes_seen d + 1)%N in
                  if (seen =? bytes_needed d)%N
                  then (utf8_init, CodePoint cp, false)
                  else (mkUtf8 cp seen (bytes_needed d) 0x80 0xBF,
                        Continue, false)).
    { unfold handler. apply N.eqb_neq in Hn. now rewrite Hn. }
    rewrite E.
    destruct (between (lower_boundary d) b (upper_boundary d)); cbn [negb].
    + cbv zeta.
      destruct (bytes_seen d + 1 =? bytes_needed d)%N; [reflexivity|].
      cbn [fst bytes_needed]. congruence.
    + pose proof (handler_init_rests b) as H.
      destruct (handler utf8_init b) as [[d2 r2] restored2]. exact H.
Qed.

Lemma run_rests (bytes : list byte) :
  forall d,
  (bytes_needed d = 0%N -> d = utf8_init) ->
  bytes_needed (fst (run d bytes)) = 0%N -> fst (run d bytes) = utf8_init.
Proof.
  induction bytes as [|x bytes IH]; intros d Hd; [exact Hd|].
  cbn [run].
  pose proof (@process_byte_rests d (Byte.to_N x) Hd) as H1.
  destruct (process_byte d (Byte.to_N x)) as [d1 out1]. cbn [fst] in H1.
  specialize (IH d1 H1). now destruct (run d1 bytes).
Qed.

(** A line feed byte brings the decoder to rest and comes out as a line
    feed, after a replacement character if it cut a character short. *)
Lemma process_LF (d : Utf8) :
  utf8_invariant d -> (bytes_needed d = 0%N -> d = utf8_init) ->
  exists w, process_byte d 10 = (utf8_init, w ++ [LF]).
Proof.
  intros [Hlo [Hhi _]] Hd.
  destruct (N.eq_dec (bytes_needed d) 0) as [Hn|Hn].
  - rewrite (Hd Hn). now exists [].
  - assert (B : between (lower_boundary d) 10 (upper_boundary d) = false)
      by (apply LineFeeds.between_false; lia).
    assert (E : handler d 10 = (utf8_init, DecodeError, true)).
    { unfold handler. apply N.eqb_neq in Hn. now rewrite Hn, B. }
    unfold process_byte. rewrite E. now exists [0xFFFD%N].
Qed.

Lemma serialize_terminated (seen : bool) (out : list N) :
  exists out', serialize seen (out ++ [LF]) = (true, out' ++ [LF]).
Proof.
  destruct seen; [now exists out|].
  destruct out as [|cp out]; [now exists []|].
  cbn [app serialize].
  destruct (cp =? 65279)%N; [now exists out | now exists (cp :: out)].
Qed.

(** Decoding up to a line feed byte: the text ends with a line feed and the
    decoder is at rest. *)
Lemma decode_terminated (td : t) (bytes : list byte) :
  utf8_invariant (decoder td) ->
  (bytes_needed (decoder td) = 0%N -> decoder td = utf8_init) ->
  exists u, decode td (bytes ++ [x0a]) = (resting, u ++ [LF]).
Proof.
  intros Hinv Hrest. unfold decode. rewrite DecoderFacts.run_app.
  pose proof (@LineFeeds.run_LF bytes (decoder td) Hinv) as [Hinv1 _].
  pose proof (@run_rests bytes (decoder td) Hrest) as Hrest1.
  destruct (run (decoder td) bytes) as [d1 o1]. cbn [fst] in *.
  cbn [run].
  destruct (process_LF Hinv1 Hrest1) as [w Hw].
  change (Byte.to_N x0a) with 10%N. rewrite Hw, app_nil_r.
  destruct (serialize_terminated (bom_seen td) (o1 ++ w)) as [out' Hser].
  rewrite <- app_assoc in Hser.
  match goal with
  | |- context [serialize ?a ?b] =>
      replace (serialize a b) with (true, out' ++ [LF])
        by (symmetry; exact Hser)
  end. exists (flat_map utf16 out').
  now rewrite flat_map_app.
Qed.

(** ASCII bytes reach a decoder at rest unchanged, wherever in the stream. *)
Lemma decode_ascii_text (td : t) (bytes : list byte) :
  bytes_needed (decoder td) = 0%N ->
  forallb is_ascii bytes = true ->
  snd (decode td bytes) = map Byte.to_N bytes.
Proof.
  intros Hn Hall. unfold decode.
  rewrite (@run_ascii bytes (decoder td) Hn Hall).
  assert (Hsmall : forall l : list byte,
            forallb is_ascii l = true ->
            flat_map utf16 (map Byte.to_N l) = map Byte.to_N l).
  { induction l as [|x l IH]; intros H; [reflexivity|].
    cbn [forallb] in H. apply andb_true_iff in H as [Hx H].
    apply N.ltb_lt in Hx. cbn [map flat_map]. rewrite (IH H).
    unfold utf16.
    assert (E : (Byte.to_N x <? 65536)%N = true) by (apply N.ltb_lt; lia).
    now rewrite E. }
  destruct (bom_seen td); [exact (Hsmall bytes Hall)|].
  destruct bytes as [|x bytes]; [reflexivity|].
  cbn [map serialize]. pose proof Hall as Hall'.
  cbn [forallb] in Hall. apply andb_true_iff in Hall as [Hx _].
  apply N.ltb_lt in Hx.
  assert (E : (Byte.to_N x =? 65279)%N = false) by (apply N.eqb_neq; lia).
  rewrite E. exact (Hsmall (x :: bytes) Hall').
Qed.

End Isolation.

Lemma complete_lines_after_terminated (t1 x : jsstring) :
  t1 = [] \/ (exists u, t1 = u ++ [LF]) ->
  complete_lines (t1 ++ x) = complete_lines t1 ++ complete_lines x.
Proof.
  intros H. rewrite complete_lines_app. f_equal.
  destruct H as [->|[u ->]]; [reflexivity|].
  now rewrite split_terminated, last_last.
Qed.

Lemma complete_lines_one (l : jsstring) :
  ~ In LF l -> complete_lines (l ++ [LF]) = [l].
Proof.
  intros Hno. unfold complete_lines.
  now rewrite split_terminated, removelast_last, split_no_sep.
Qed.

Section IsolationProperty.

Variable JSON_parse : jsstring -> option StreamEvent.

(** X17. Frames are isolated by line feeds.  Take a stream in which an ASCII
    line, ended by a line feed byte, stands at the very start or right after
    a line feed byte.  Whatever the bytes before and after are (other frames,
    broken UTF-8, a character cut short by the preceding line feed), and
    however the stream is cut into chunks, the generator shows what the bytes
    before give on their own, then what that line gives on its own, then what
    the bytes after give to a decoder at rest. *)
Theorem X17_frames_are_isolated (reads : list (list byte))
    (prefix line rest : list byte) :
  prefix = [] \/ (exists b, prefix = b ++ [x0a]) ->
  forallb is_ascii line = true ->
  forallb (fun b => negb (is_LF_byte b)) line = true ->
  List.concat reads = prefix ++ line ++ [x0a] ++ rest ->
  streamChat_loop JSON_parse TextDecoder.create [] reads =
  streamChat_loop JSON_parse TextDecoder.create [] [prefix]
  ++ streamChat_line JSON_parse (map Byte.to_N line)
  ++ streamChat_loop JSON_parse resting [] [rest].
Proof.
  intros Hprefix Hascii Hnolf Hreads.
  rewrite !streamChat_loop_whole by apply complete_lines_nil.
  rewrite Hreads. cbn [List.concat]. rewrite !app_nil_r.
  rewrite (app_assoc line [x0a] rest).
  rewrite (DecoderFacts.decode_app TextDecoder.create prefix).
  (* the bytes before *)
  assert (H1 : exists td1 t1,
             TextDecoder.decode TextDecoder.create prefix = (td1, t1)
             /\ TextDecoder.bytes_needed (TextDecoder.decoder td1) = 0%N
             /\ utf8_invariant (TextDecoder.decoder td1)
             /\ (t1 = [] \/ exists u, t1 = u ++ [LF])).
  { destruct Hprefix as [->|[b ->]].
    - exists TextDecoder.create, [].
      split; [reflexivity|]. split; [reflexivity|].
      split; [apply LineFeeds.utf8_init_invariant | now left].
    - destruct (@Isolation.decode_terminated TextDecoder.create b
                  LineFeeds.utf8_init_invariant (fun _ => eq_refl))
        as [u Hu].
      exists resting, (u ++ [LF]).
      split; [exact Hu|]. split; [reflexivity|].
      split; [apply LineFeeds.utf8_init_invariant|].
      right. now exists u. }
  destruct H1 as [td1 [t1 [E1 [Hn1 [Hinv1 Ht1]]]]]. rewrite E1.
  rewrite (DecoderFacts.decode_app td1 (line ++ [x0a]) rest).
  (* the line *)
  assert (Hline : forallb is_ascii (line ++ [x0a]) = true)
    by (rewrite forallb_app, Hascii; reflexivity).
  pose proof (@Isolation.decode_ascii_text td1 (line ++ [x0a]) Hn1 Hline) as Ht2.
  assert (Hrest1 : TextDecoder.bytes_needed (TextDecoder.decoder td1) = 0%N ->
                   TextDecoder.decoder td1 = TextDecoder.utf8_init).
  { destruct Hprefix as [->|[b ->]].
    - cbn in E1. injection E1 as <- _. reflexivity.
    - destruct (@Isolation.decode_terminated TextDecoder.create b
                  LineFeeds.utf8_init_invariant (fun _ => eq_refl))
        as [u Hu].
      rewrite Hu in E1. injection E1 as <- _. reflexivity. }
  destruct (@Isolation.decode_terminated td1 line Hinv1 Hrest1) as [u2 E2].
  rewrite E2 in Ht2 |- *. cbn [snd] in Ht2.
  rewrite map_app in Ht2. cbn [map] in Ht2.
  change (Byte.to_N x0a) with LF in Ht2. rewrite Ht2.
  destruct (TextDecoder.decode resting rest) as [td3 t3]. cbn [snd].
  (* the lines *)
  rewrite !app_nil_l.
  rewrite (complete_lines_after_terminated _ Ht1), flat_map_app.
  f_equal.
  rewrite complete_lines_after_terminated
    by (right; now exists (map Byte.to_N line)).
  rewrite complete_lines_one, flat_map_app.
  - cbn [flat_map]. now rewrite app_nil_r.
  - intros Hin. apply in_map_iff in Hin as [x [Hx Hin]].
    rewrite forallb_forall in Hnolf. specialize (Hnolf x Hin).
    unfold is_LF_byte in Hnolf. rewrite Hx in Hnolf. discriminate.
Qed.

End IsolationProperty.

(* ================================================================== *)
(** * The further properties on concrete streams and states *)

Module OnScenario2.
Import Scenario Scenario2.

(** An interrupt followed by a broken stream: the log ends with the error
    entry and the state still awaits the answer. *)
Lemma X2_witness :
  stream_state
    (h_state (handleSubmit JSON_parse (breaking [frame_interrupt; frame_step]) typed))
  = AwaitingHumanInput
  /\ stream_state
       (h_state (handleInterruptResponse JSON_parse (serving [frame_step])
                   (JNum 1) awaiting))
     = Idle.
Proof.
  split.
  - rewrite (proj1 (X2_interrupt_outlives_the_stream JSON_parse
                      (breaking [frame_interrupt; frame_step]) (JNum 0) typed)
               eq_refl eq_refl).
    reflexivity.
  - rewrite (proj2 (X2_interrupt_outlives_the_stream JSON_parse
                      (serving [frame_step]) (JNum 1) awaiting)
               (js "c1") pending eq_refl eq_refl).
    reflexivity.
Defined.

(** A step, a result and a further step: the counter ends at 9, after a
    submission and after an answer alike. *)
Lemma X3_witness :
  currentStep
    (h_state (handleSubmit JSON_parse (serving [frame_step; frame_A]) typed))
  = 2%Z
  /\ currentStep
       (h_state (handleSubmit JSON_parse
                   (serving [frame_step; frame_result; frame_winter]) typed))
     = 9%Z
  /\ currentStep
       (h_state (handleInterruptResponse JSON_parse (serving [frame_winter])
                   (JStr (js "5")) answering))
     = 3%Z
  /\ currentStep
       (h_state (handleInterruptResponse JSON_parse
                   (serving [frame_step; frame_result; frame_winter])
                   (JStr (js "5")) answering))
     = 9%Z.
Proof.
  split; [|split; [|split]].
  - rewrite (proj1 (proj1 (X3_counter_counts_progress JSON_parse
                             (serving [frame_step; frame_A]) (JNum 0) typed)
                      eq_refl eq_refl) eq_refl).
    reflexivity.
  - rewrite (proj2 (proj1 (X3_counter_counts_progress JSON_parse
                             (serving [frame_step; frame_result; frame_winter])
                             (JNum 0) typed)
                      eq_refl eq_refl)
               [step_event] result_event [winter_step]
               eq_refl eq_refl eq_refl).
    reflexivity.
  - rewrite (proj1 (proj2 (X3_counter_counts_progress JSON_parse
                             (serving [frame_winter]) (JStr (js "5")) answering)
                      (js "c1") pending_question eq_refl eq_refl) eq_refl).
    reflexivity.
  - rewrite (proj2 (proj2 (X3_counter_counts_progress JSON_parse
                             (serving [frame_step; frame_result; frame_winter])
                             (JStr (js "5")) answering)
                      (js "c1") pending_question eq_refl eq_refl)
               [step_event] result_event [winter_step]
               eq_refl eq_refl eq_refl).
    reflexivity.
Defined.

(** A stream whose events carry other identifiers leaves [c1] bound. *)
Lemma X4_witness :
  conversationId
    (h_state (handleSubmit JSON_parse (serving [frame_A; frame_B]) typed_bound))
  = Some (js "c1")
  /\ h_requests (handleSubmit JSON_parse (serving [frame_A; frame_B]) typed_bound)
     = [PostChatStream (js "hi") (Some (js "c1"))].
Proof.
  destruct (@X4_bound_identifier_is_kept_and_sent JSON_parse
              (serving [frame_A; frame_B]) (JNum 0) typed_bound eq_refl)
    as [[Hid _] _].
  split; [exact Hid | reflexivity].
Defined.

Lemma X5_witness :
  handleStreamEvent initial (event "resume") awaiting = awaiting
  /\ handleStreamEvent initial (event "Step") awaiting = awaiting.
Proof.
  split.
  - rewrite (@X5_unhandled_events_are_inert initial (event "resume") awaiting).
    + reflexivity.
    + intros tag Hin. cbn in Hin.
      repeat (destruct Hin as [<-|Hin]; [reflexivity|]). destruct Hin.
  - rewrite (@X5_unhandled_events_are_inert initial (event "Step") awaiting).
    + reflexivity.
    + intros tag Hin. cbn in Hin.
      repeat (destruct Hin as [<-|Hin]; [reflexivity|]). destruct Hin.
Defined.

Lemma X6_witness :
  messages (handleStreamEvent initial
              (narration "system" "Welcome aboard") initial)
  = [system_entry (js "Welcome aboard")]
  /\ messages (handleStreamEvent initial
                 (narration "system" "Still Processing your request") initial)
     = []
  /\ messages (handleStreamEvent initial
                 (narration "message" "Still Processing your request") initial)
     = [system_entry (js "Still Processing your request")].
Proof.
  split; [|split].
  - apply (proj1 (proj1 (@X6_narration_filter initial
                           (narration "system" "Welcome aboard") initial
                           (js "Welcome aboard") eq_refl) eq_refl)).
    + discriminate.
    + apply includes_false. reflexivity.
    + apply includes_false. reflexivity.
  - apply (proj2 (proj1 (@X6_narration_filter initial
                           (narration "system" "Still Processing your request")
                           initial (js "Still Processing your request")
                           eq_refl) eq_refl)).
    right. right. exists (js "Still "), (js " your request"). reflexivity.
  - apply (proj2 (@X6_narration_filter initial
                    (narration "message" "Still Processing your request")
                    initial (js "Still Processing your request") eq_refl)
             eq_refl).
    discriminate.
Defined.

Lemma X7_witness :
  h_requests (handleInterruptResponse JSON_parse (serving []) (JNum 5) awaiting)
  = [PostChatResume (js "c1") (JNum 5)]
  /\ responseText pending (JNum 5) = JStr (js "Option 5")
  /\ responseText pending (JNum (-1)) = JStr (js "Option -1").
Proof.
  split; [|split].
  - apply (@X7_answer_is_not_range_checked JSON_parse (serving []) awaiting
             (js "c1") pending 5%Z eq_refl eq_refl eq_refl eq_refl).
    right. eexists. split; [reflexivity|]. right. cbn. lia.
  - apply (@X7_answer_is_not_range_checked JSON_parse (serving []) awaiting
             (js "c1") pending 5%Z eq_refl eq_refl eq_refl eq_refl).
    right. eexists. split; [reflexivity|]. right. cbn. lia.
  - apply (@X7_answer_is_not_range_checked JSON_parse (serving []) awaiting
             (js "c1") pending (-1)%Z eq_refl eq_refl eq_refl eq_refl).
    right. eexists. split; [reflexivity|]. left. lia.
Defined.

Lemma X8_witness :
  handleSubmit JSON_parse (serving []) (setInput (js "   ") initial)
  = mkHandled (setInput (js "   ") initial) [] Returned
  /\ exists left right,
       input padded = left ++ js "hi" ++ right
       /\ forallb isWhiteSpace left = true
       /\ forallb isWhiteSpace right = true.
Proof.
  split.
  - apply (proj1 (X8_submitted_text_is_trimmed JSON_parse (serving [])
                    (setInput (js "   ") initial))).
    reflexivity.
  - apply (proj2 (X8_submitted_text_is_trimmed JSON_parse (serving []) padded)
             (js "hi") None).
    left. reflexivity.
Defined.

(** The same events through two different wires: one clean, one cut into
    pieces around a comment line and with a frame that does not parse. *)
Lemma X9_witness :
  handleSubmit JSON_parse (serving [frame_A; frame_B]) typed =
  handleSubmit JSON_parse
    (always (Response 206 (Some (mkBody (pieces ++ [bytes_of frame_bad])
                                        EndOfStream))))
    typed.
Proof.
  apply (proj1 (X9_state_depends_on_events_only JSON_parse
                  (serving [frame_A; frame_B])
                  (always (Response 206
                             (Some (mkBody (pieces ++ [bytes_of frame_bad])
                                           EndOfStream))))
                  (JNum 0) typed));
    reflexivity.
Defined.

(** The scenario interrupt carries no identifier: a first submission that
    receives it is stuck. *)
Lemma X10_witness :
  let s' := h_state (handleSubmit JSON_parse (serving [frame_interrupt]) typed) in
  stream_state s' = AwaitingHumanInput
  /\ handleInterruptResponse JSON_parse (serving [frame_interrupt]) (JNum 1) s'
     = mkHandled s' [] Returned
  /\ submit_disabled s' = true
  /\ option_disabled s' = false.
Proof.
  intros s'.
  destruct (@X10_interrupt_without_identifier_is_stuck JSON_parse
              (serving [frame_interrupt]) typed
              eq_refl eq_refl eq_refl eq_refl eq_refl)
    as [Hstate [Hanswer [_ [_ [_ [Hsubmit Hoption]]]]]].
  split; [exact Hstate|]. split; [apply Hanswer|].
  split; [exact Hsubmit | exact Hoption].
Defined.

Lemma X11_witness :
  h_requests (question_onSubmit JSON_parse (serving []) answering)
  = [PostChatResume (js "c1") (JStr (js " 5 "))]
  /\ question_onSubmit JSON_parse (serving [])
       (setUserResponse (js "  ") answering)
     = mkHandled (setUserResponse (js "  ") answering) [] Returned.
Proof.
  split.
  - apply (proj2 (X11_question_answer_goes_as_typed JSON_parse (serving [])
                    answering)
             (js "c1") pending_question eq_refl eq_refl eq_refl).
  - apply (proj1 (X11_question_answer_goes_as_typed JSON_parse (serving [])
                    (setUserResponse (js "  ") answering))).
    reflexivity.
Defined.

(** The season of a step is picked up by a submission and survives an answer
    whose stream names none. *)
Lemma X12_witness :
  selectedSeason
    (h_state (handleSubmit JSON_parse (serving [frame_winter; frame_step]) typed))
  = Some (JStr (js "winter"))
  /\ selectedSeason
       (h_state (handleInterruptResponse JSON_parse (serving [frame_step])
                   (JStr (js "5")) answering))
     = Some (JStr (js "winter"))
  /\ selectedSeason
       (handleStreamEvent initial (narration "season" "Winter") initial)
     = None.
Proof.
  split; [|split].
  - rewrite (proj1 (X12_season_follows_step_events JSON_parse
                      (serving [frame_winter; frame_step]) (JNum 0) typed)
               eq_refl eq_refl).
    reflexivity.
  - rewrite (proj1 (proj2 (X12_season_follows_step_events JSON_parse
                             (serving [frame_step]) (JStr (js "5")) answering))
               (js "c1") pending_question eq_refl eq_refl).
    reflexivity.
  - apply (proj2 (proj2 (X12_season_follows_step_events JSON_parse
                           (serving []) (JNum 0) initial))).
    reflexivity.
Defined.

Lemma X14_witness :
  yielded (streamChat_loop JSON_parse TextDecoder.create []
             (map bytes_of [frame_step; frame_result]))
  = [step_event; result_event].
Proof.
  rewrite (proj1 (@X14_ascii_is_read_byte_for_byte JSON_parse
                    (map bytes_of [frame_step; frame_result]) eq_refl)).
  reflexivity.
Defined.


Lemma X15_witness :
  exists currentInterrupt,
    interruptData (handleStreamEvent initial interrupt_event initial)
    = Some currentInterrupt
    /\ responseText currentInterrupt (JNum 1) = JStr (js "Lisbon").
Proof.
  destruct (@X15_answers_resolve_against_the_interrupt initial interrupt_event
              initial
              [JObj [(js "name", JStr (js "Kyoto"))];
               JObj [(js "name", JStr (js "Lisbon"))]]
              eq_refl eq_refl)
    as [ci [entry [Hci [_ [_ [_ [_ [_ Hecho]]]]]]]].
  exists ci. split; [exact Hci|].
  apply (Hecho eq_refl 1%nat (JObj [(js "name", JStr (js "Lisbon"))])
           (JStr (js "Lisbon"))); reflexivity.
Defined.

(** A frame between a character that a line feed cuts short and a byte
    that is no UTF-8: it is yielded all the same. *)
Lemma X17_witness :
  yielded
    (streamChat_loop JSON_parse TextDecoder.create []
       [ [xe2; x9c];
         [x0a] ++ bytes_of "data: {'type':'step','conversation_id':'A'}";
         [x0a; xff] ])
  = [with_id (event "step") "A"].
Proof.
  rewrite (@X17_frames_are_isolated JSON_parse
             [ [xe2; x9c];
               [x0a] ++ bytes_of "data: {'type':'step','conversation_id':'A'}";
               [x0a; xff] ]
             [xe2; x9c; x0a]
             (bytes_of "data: {'type':'step','conversation_id':'A'}")
             [xff]).
  - reflexivity.
  - right. exists [xe2; x9c]. reflexivity.
  - reflexivity.
  - reflexivity.
  - reflexivity.
Defined.

End OnScenario2.
